(** * simpleai.machine_learning.reinforcement_learning

    A shallow embedding of the tabular reinforcement-learning core
    (exploration strategies, temperature schedule, [QLearner] and its two
    concrete variants) together with the properties its specification
    states about it.

    Modelling conventions.

    - Python integers are [Z].  For the learner and its tables a Python
      float is a real number ([R]): what is proved about them says which
      entries a call reads and writes and by which expression, and does
      not rest on how an operation rounds.
    - The temperature schedule and the softmax strategy do depend on
      rounding and on the range of a double.  They are given a second
      time over an arithmetic that is a parameter ([Fp.Arith]), of which
      Python's own, IEEE 754 binary64 on the kernel's primitive floats
      ([Double.arith]), is an instance, and exact arithmetic another.
      What is stated of their results is stated there.
    - A Python exception is a value of [exn]; a computation that may raise
      has type [result A].  The places where Python raises on numbers are
      kept: the conversion of an integer to a float and [math.exp] raise
      [OverflowError], float division raises [ZeroDivisionError] on a
      zero divisor.
    - [defaultdict] tables are finite maps ([gmap]) with the
      insert-on-read behaviour of [__missing__] written out; [Counter]
      reads a missing key as [0] without inserting it.
    - The process-wide random source is an explicit argument ([rand]).
    - What the interpreter state looks like after an uncaught exception is
      not modelled: a raising computation yields [Raise e] only. *)

From Stdlib Require Import Floats Reals Lra Lia ZArith Sorted.
From stdpp Require Import gmap list strings pretty.

Open Scope R_scope.

(** ** Exceptions and the error monad *)

Inductive exn : Set :=
  | ValueError
  | IndexError
  | KeyError
  | TypeError
  | OverflowError
  | ZeroDivisionError
  | NotImplementedError.

Inductive result (A : Type) : Type :=
  | Ok (a : A)
  | Raise (e : exn).

Arguments Ok {A} a.
Arguments Raise {A} e.

#[global] Instance exn_eq_dec : EqDecision exn.
Proof. solve_decision. Defined.

#[global] Instance result_ret : MRet result := λ A a, Ok a.

#[global] Instance result_bind : MBind result := λ A B f m,
  match m with
  | Ok a => f a
  | Raise e => Raise e
  end.

(** [try: m except e: h] *)
Definition try_except {A} (m : result A) (e : exn) (h : result A) : result A :=
  match m with
  | Ok a => Ok a
  | Raise e' => if decide (e' = e) then h else Raise e'
  end.

(** ** Python numerics *)

(** Comparisons of floats, as decisions. *)
#[global] Instance Rlt_decision (x y : R) : Decision (x < y) := Rlt_dec x y.
#[global] Instance Rge_decision (x y : R) : Decision (x >= y) := Rge_dec x y.
#[global] Instance Req_decision : EqDecision R := Req_dec_T.

(** Exact arithmetic.  The largest finite double, [2^1024 - 2^971]. *)
Definition float_max : R := IZR (2 ^ 1024 - 2 ^ 971).

(** [float(n)] for a Python integer, as done implicitly by [n * alpha];
    in exact arithmetic nothing is rounded, and the conversion raises
    beyond the largest double. *)
Definition py_float (n : Z) : result R :=
  if decide (float_max < Rabs (IZR n)) then Raise OverflowError else Ok (IZR n).

(** [math.exp(x)], in exact arithmetic: the exponential, [OverflowError]
    beyond the largest double.  ([Double.math_exp] is the function on
    doubles.) *)
Definition math_exp (x : R) : result R :=
  if decide (float_max < exp x) then Raise OverflowError else Ok (exp x).

(** [x / y] on floats *)
Definition py_div (x y : R) : result R :=
  if decide (y = 0) then Raise ZeroDivisionError else Ok (x / y).

(** [max(a, b)]: the first argument is kept unless the second is greater. *)
Definition py_max2 (a b : R) : R := if decide (a < b) then b else a.

(** [min(a, b)]: the first argument is kept unless the second is smaller. *)
Definition py_min2 (a b : R) : R := if decide (b < a) then b else a.

(** [max(iterable)] *)
Definition py_max (l : list R) : result R :=
  match l with
  | [] => Raise ValueError
  | x :: l' => Ok (foldl py_max2 x l')
  end.

(** [min(iterable)] *)
Definition py_min (l : list R) : result R :=
  match l with
  | [] => Raise ValueError
  | x :: l' => Ok (foldl py_min2 x l')
  end.

(** [sum(iterable)] *)
Definition py_sum (l : list R) : R := foldl Rplus 0 l.

(** ** Temperature schedule *)

(** [make_exponential_temperature(initial_temperature, alpha)] returns the
    closure [_function]; the closure is the partial application.  This is
    the schedule in exact arithmetic, [Fp.make_exponential_temperature]
    the schedule in any. *)
Definition make_exponential_temperature (initial_temperature alpha : R)
    : Z → result R :=
  λ n,
    try_except
      (x ← py_float n;
       e ← math_exp (x * alpha);
       py_div initial_temperature e)
      OverflowError
      (Ok 0.01).


(** ** Containers *)

(** [l[i]] for a non-negative index. *)
Definition list_getitem {A} (l : list A) (i : nat) : result A :=
  match l !! i with
  | Some x => Ok x
  | None => Raise IndexError
  end.

(** [d[k]] on a plain [dict]. *)
Definition dict_getitem `{Countable K} {V} (d : gmap K V) (k : K) : result V :=
  match d !! k with
  | Some v => Ok v
  | None => Raise KeyError
  end.

(** [dict(pairs)]: later pairs overwrite earlier ones. *)
Definition dict_of_pairs `{Countable K} {V} (pairs : list (K * V)) : gmap K V :=
  foldl (λ d p, <[p.1 := p.2]> d) ∅ pairs.

(** [d.values()].  A Python [dict] enumerates in insertion order, a [gmap]
    in an order of its own; the only consumer is [max]. *)
Definition dict_values `{Countable K} {V} (d : gmap K V) : list V :=
  (map_to_list d).*2.

(** [d[k]] on a [defaultdict(lambda: dflt)]: a missing key is inserted
    with the default before it is returned. *)
Definition defaultdict_getitem `{Countable K} {V} (dflt : V) (d : gmap K V) (k : K)
    : V * gmap K V :=
  match d !! k with
  | Some v => (v, d)
  | None => (dflt, <[k := dflt]> d)
  end.

(** [c[k]] on a [Counter]: a missing key reads as [0] and is not inserted. *)
Definition counter_getitem `{Countable K} (c : gmap K Z) (k : K) : Z :=
  default 0%Z (c !! k).

(** The random source: what [random.choice] and [random.random] draw. *)
Record rand := { rand_choice : nat; rand_random : R }.

(** [random.choice(seq)]: [seq[randbelow(len(seq))]]. *)
Definition random_choice {A} (rnd : rand) (seq : list A) : result A :=
  match seq with
  | [] => Raise IndexError
  | _ => list_getitem seq (rand_choice rnd mod length seq)
  end.

(** Modelled from the spec: [simpleai.search.utils.argmax] is imported but
    not part of the sources at hand.  The specification says that the
    action with the maximum utility is returned, ties broken by
    first-encountered order in [actions]: a later element replaces the
    current best only when its utility is strictly greater. *)
Fixpoint argmax_from {A} (best : A) (best_value : R) (l : list A)
    (function : A → result R) : result A :=
  match l with
  | [] => Ok best
  | x :: l' =>
      v ← function x;
      if decide (best_value < v)
      then argmax_from x v l' function
      else argmax_from best best_value l' function
  end.

Definition argmax {A} (iterable : list A) (function : A → result R) : result A :=
  match iterable with
  | [] => Raise ValueError
  | x :: l' => v ← function x; argmax_from x v l' function
  end.

(** ** Exploration strategies *)

(** One row [Q[state]] of the value table and one row [counter[state]] of
    the visitation counter.  A key is an action or Python's [None] (the
    action recorded for a state without legal actions). *)
Abbreviation utilities_t Action := (gmap (option Action) R).
Abbreviation action_counter_t Action := (gmap (option Action) Z).

(** The signature of an exploration function.  The row it receives is the
    very object stored in the table, so the row as it is left by the call
    is returned next to the selected action. *)
Abbreviation exploration_t Action :=
  (list Action → utilities_t Action → R → action_counter_t Action → rand →
   result (Action * utilities_t Action)).

Section Exploration.
Context {Action : Type} `{Countable Action}.

(** [[utilities[x] for x in actions]] on the default-0 row. *)
Fixpoint read_utilities (actions : list Action) (utilities : utilities_t Action)
    : list R * utilities_t Action :=
  match actions with
  | [] => ([], utilities)
  | x :: xs =>
      let '(v, u1) := defaultdict_getitem 0 utilities (Some x) in
      let '(vs, u2) := read_utilities xs u1 in
      (v :: vs, u2)
  end.

(** The [for i, utility in enumerate(utilities)] loop of
    [at_least_n_times_exploration]; both lists have the same length. *)
Definition override_rarely_tried (optimistic_reward : R) (min_n : Z)
    (actions : list Action) (action_counter : action_counter_t Action)
    (utilities : list R) : list R :=
  zip_with
    (λ x utility,
       if bool_decide (counter_getitem action_counter (Some x) < min_n)%Z
       then optimistic_reward else utility)
    actions utilities.

Definition make_at_least_n_times (optimistic_reward : R) (min_n : Z)
    : exploration_t Action :=
  λ actions utilities temperature action_counter rnd,
    let '(us, utilities') := read_utilities actions utilities in
    let us' :=
      override_rarely_tried optimistic_reward min_n actions action_counter us in
    let d := dict_of_pairs (zip actions us') in
    let uf := λ action, dict_getitem d action in
    x ← argmax actions uf;
    Ok (x, utilities').

(** The [while i < len(actions) and r >= tot] loop of
    [boltzmann_exploration].  [rest] is [probs[i+1:]], so that [probs[i]]
    after [i += 1] is its head, and [IndexError] when it is exhausted. *)
Fixpoint boltzmann_loop (n : nat) (r : R) (rest : list R) (i : nat) (tot : R)
    {struct rest} : result nat :=
  if bool_decide (i < n)%nat && bool_decide (r >= tot)
  then
    match rest with
    | [] => Raise IndexError
    | p :: rest' => boltzmann_loop n r rest' (S i) (tot + p)
    end
  else Ok i.

Definition boltzmann_exploration : exploration_t Action :=
  λ actions utilities temperature action_counter rnd,
    let '(us, utilities') := read_utilities actions utilities in
    let temperature := py_max2 temperature 0.01 in
    _max ← py_max us;
    _min ← py_min us;
    if bool_decide (_max = _min)
    then x ← random_choice rnd actions; Ok (x, utilities')
    else
      us ← mapM (λ u, d ← py_div (u - _min) (_max - _min);
                       q ← py_div d temperature;
                       math_exp q) us;
      probs ← mapM (λ u, py_div u (py_sum us)) us;
      tot ← list_getitem probs 0;
      let r := rand_random rnd in
      i ← boltzmann_loop (length actions) r (drop 1 probs) 0 tot;
      x ← list_getitem actions i;
      Ok (x, utilities').

End Exploration.

(** ** The learner *)

(** The value table [Q] and the visitation counter [counter]:
    [defaultdict(lambda: defaultdict(lambda: 0))] and
    [defaultdict(lambda: Counter())].  A state key is a state or [None]
    ([last_state] before the first step). *)
Abbreviation qtable_t State Action := (gmap (option State) (utilities_t Action)).
Abbreviation ctable_t State Action := (gmap (option State) (action_counter_t Action)).

Section Learner.
Context {Percept State Action : Type} `{Countable State, Countable Action}.

(** The two methods a problem overrides: [update_state] (identity by
    default) and [actions]. *)
Variable update_state : Percept → State.
Variable actions : State → list Action.

Record QLearner := {
  Q : qtable_t State Action;
  exploration_function : exploration_t Action;
  last_state : option State;
  last_action : option Action;
  counter : ctable_t State Action;
  discount_factor : R;
  temperature_function : Z → result R;
  trials : Z;
  last_reward : option R
}.

Definition set_Q (q : qtable_t State Action) (l : QLearner) : QLearner :=
  {| Q := q; exploration_function := exploration_function l;
     last_state := last_state l; last_action := last_action l;
     counter := counter l; discount_factor := discount_factor l;
     temperature_function := temperature_function l; trials := trials l;
     last_reward := last_reward l |}.

Definition set_counter (c : ctable_t State Action) (l : QLearner) : QLearner :=
  {| Q := Q l; exploration_function := exploration_function l;
     last_state := last_state l; last_action := last_action l;
     counter := c; discount_factor := discount_factor l;
     temperature_function := temperature_function l; trials := trials l;
     last_reward := last_reward l |}.

Definition set_last (s : option State) (a : option Action) (l : QLearner) : QLearner :=
  {| Q := Q l; exploration_function := exploration_function l;
     last_state := s; last_action := a;
     counter := counter l; discount_factor := discount_factor l;
     temperature_function := temperature_function l; trials := trials l;
     last_reward := last_reward l |}.

Definition set_trials (n : Z) (l : QLearner) : QLearner :=
  {| Q := Q l; exploration_function := exploration_function l;
     last_state := last_state l; last_action := last_action l;
     counter := counter l; discount_factor := discount_factor l;
     temperature_function := temperature_function l; trials := n;
     last_reward := last_reward l |}.

Definition set_last_reward (r : option R) (l : QLearner) : QLearner :=
  {| Q := Q l; exploration_function := exploration_function l;
     last_state := last_state l; last_action := last_action l;
     counter := counter l; discount_factor := discount_factor l;
     temperature_function := temperature_function l; trials := trials l;
     last_reward := r |}.

(** [QLearner.__init__]; a caller-supplied [Q] is taken to be a table of
    the same default-0 kind. *)
Definition QLearner_init (exploration_function : exploration_t Action)
    (discount_factor : R) (temperature_function : Z → result R)
    (Q : option (qtable_t State Action)) : QLearner :=
  {| Q := default ∅ Q; exploration_function := exploration_function;
     last_state := None; last_action := None;
     counter := ∅; discount_factor := discount_factor;
     temperature_function := temperature_function; trials := 0;
     last_reward := None |}.

(** [table[s]] on the outer [defaultdict]: the row object, and the table
    in which a missing row has been inserted empty. *)
Definition table_row {V} (table : gmap (option State) (gmap (option Action) V))
    (s : option State)
    : gmap (option Action) V * gmap (option State) (gmap (option Action) V) :=
  defaultdict_getitem ∅ table s.

(** [self.Q[s][a]] as an expression: both levels insert on a miss, and the
    row is the object held by the table. *)
Definition Q_getitem (q : qtable_t State Action) (s : option State)
    (a : option Action) : R * qtable_t State Action :=
  let '(row, q1) := table_row q s in
  let '(v, row') := defaultdict_getitem 0 row a in
  (v, <[s := row']> q1).

(** [self.Q[s][a] = v] *)
Definition Q_setitem (q : qtable_t State Action) (s : option State)
    (a : option Action) (v : R) : qtable_t State Action :=
  let '(row, q1) := table_row q s in
  <[s := <[a := v]> row]> q1.

(** [self.counter[s][a] += 1] *)
Definition counter_increment (c : ctable_t State Action) (s : option State)
    (a : option Action) : ctable_t State Action :=
  let '(row, c1) := table_row c s in
  <[s := <[a := (counter_getitem row a + 1)%Z]> row]> c1.

Definition set_reward (l : QLearner) (reward : R) (terminal : bool) : QLearner :=
  let l := set_last_reward (Some reward) l in
  if terminal
  then
    let l := set_trials (trials l + 1) l in
    set_Q (Q_setitem (Q l) (last_state l) (last_action l) reward) l
  else l.

Definition learning_rate (l : QLearner) (n : Z) : result R :=
  t ← temperature_function l n;
  Ok (py_min2 1 t).

(** [update_rule(self, s, a, r, cs, ca)]: [a] and [ca] may be [None],
    and [r] is [last_reward], [None] until the first [set_reward]. *)
Definition update_rule_t : Type :=
  QLearner → State → option Action → option R → State → option Action →
  result QLearner.

(** An operand of float arithmetic: [None] is a [TypeError]. *)
Definition number (r : option R) : result R :=
  match r with
  | Some x => Ok x
  | None => Raise TypeError
  end.

(** [QLearner.update_rule] *)
Definition QLearner_update_rule : update_rule_t :=
  λ l s a r cs ca, Raise NotImplementedError.

(** [self.learning_rate(self.counter[s][a])], the first line of both
    concrete update rules: the learner with the row [counter[s]] in place,
    and the rate. *)
Definition update_rule_lr (l : QLearner) (s : State) (a : option Action)
    : result (R * QLearner) :=
  let '(row, c1) := table_row (counter l) (Some s) in
  let l := set_counter c1 l in
  lr ← learning_rate l (counter_getitem row a);
  Ok (lr, l).

(** [TD_QLearner.update_rule].  The augmented assignment reads its target
    [self.Q[s][a]] first, then evaluates the right-hand side from left to
    right, then stores. *)
Definition TD_QLearner_update_rule : update_rule_t :=
  λ l s a r cs ca,
    '(lr, l) ← update_rule_lr l s a;
    let '(old, q1) := Q_getitem (Q l) (Some s) a in
    let '(row_cs, q2) := table_row q1 (Some cs) in
    m ← py_max (dict_values row_cs);
    r ← number r;
    let '(cur, q3) := Q_getitem q2 (Some s) a in
    Ok (set_Q (Q_setitem q3 (Some s) a
                 (old + lr * (r + discount_factor l * m - cur))) l).

(** [SARSA_Learner.update_rule] *)
Definition SARSA_Learner_update_rule : update_rule_t :=
  λ l s a r cs ca,
    '(lr, l) ← update_rule_lr l s a;
    let '(old, q1) := Q_getitem (Q l) (Some s) a in
    let '(next, q2) := Q_getitem q1 (Some cs) ca in
    r ← number r;
    let '(cur, q3) := Q_getitem q2 (Some s) a in
    Ok (set_Q (Q_setitem q3 (Some s) a
                 (old + lr * (r + discount_factor l * next - cur))) l).

(** The three classes, and the method each one's [update_rule] resolves to. *)
Inductive learner_class : Set :=
  | QLearner_class
  | TD_QLearner
  | SARSA_Learner.

Definition update_rule (cls : learner_class) : update_rule_t :=
  match cls with
  | QLearner_class => QLearner_update_rule
  | TD_QLearner => TD_QLearner_update_rule
  | SARSA_Learner => SARSA_Learner_update_rule
  end.

(** The first half of [step]: the choice of [current_action].  The
    arguments of the exploration call are evaluated from left to right:
    [self.Q[state]], the temperature, [self.counter[state]]. *)
Definition select_action (l : QLearner) (state : State) (rnd : rand)
    : result (option Action * QLearner) :=
  let acts := actions state in
  if bool_decide (0 < length acts)%nat
  then
    let '(row, q1) := table_row (Q l) (Some state) in
    t ← temperature_function l (trials l);
    let '(crow, c1) := table_row (counter l) (Some state) in
    '(x, row') ← exploration_function l acts row t crow rnd;
    Ok (Some x, set_counter c1 (set_Q (<[Some state := row']> q1) l))
  else Ok (None, l).

(** [QLearner.step], with the class's [update_rule] as an argument. *)
Definition step_with (rule : update_rule_t) (l : QLearner) (percept : Percept)
    (rnd : rand) : result (option Action * QLearner) :=
  let s := last_state l in
  let a := last_action l in
  let state := update_state percept in
  '(current_action, l) ← select_action l state rnd;
  l ← match s with
      | Some s =>
          let l := set_counter (counter_increment (counter l) (Some s) a) l in
          rule l s a (last_reward l) state current_action
      | None => Ok l
      end;
  Ok (current_action, set_last (Some state) current_action l).

Definition step (cls : learner_class) : QLearner → Percept → rand →
    result (option Action * QLearner) :=
  step_with (update_rule cls).

End Learner.

(** ** Reading the tables

    What a table holds, without the side effect of reading it: the
    recorded entry, if any, and the utility or count it stands for. *)

Section Observations.
Context {State Action : Type} `{Countable State, Countable Action}.

Definition recorded {V} (table : gmap (option State) (gmap (option Action) V))
    (s : option State) (a : option Action) : option V :=
  table !! s ≫= λ row, row !! a.

Definition Q_value (q : qtable_t State Action) (s : option State)
    (a : option Action) : R :=
  default 0 (recorded q s a).

Definition counter_value (c : ctable_t State Action) (s : option State)
    (a : option Action) : Z :=
  default 0%Z (recorded c s a).

(** The utilities recorded for a state: [Q[s].values()], empty when the
    state has no row. *)
Definition recorded_utilities (q : qtable_t State Action) (s : option State)
    : list R :=
  dict_values (default ∅ (q !! s)).

End Observations.

(** ** What the exploration strategies are specified to compute *)

Section ExplorationSpec.
Context {Action : Type} `{Countable Action}.

(** The utility a row stands for at an action: [0] when not recorded. *)
Definition utility_of (utilities : utilities_t Action) (x : Action) : R :=
  default 0 (utilities !! Some x).

(** The utility the optimistic strategy selects by: [optimistic_reward]
    for an action tried fewer than [min_n] times, the table utility
    otherwise. *)
Definition effective_utility (optimistic_reward : R) (min_n : Z)
    (utilities : utilities_t Action) (action_counter : action_counter_t Action)
    (x : Action) : R :=
  if bool_decide (counter_getitem action_counter (Some x) < min_n)%Z
  then optimistic_reward
  else utility_of utilities x.

End ExplorationSpec.

(** The two strategies the module provides. *)
Definition provided_exploration {Action : Type} `{Countable Action}
    (f : exploration_t Action) : Prop :=
  (∃ optimistic_reward min_n, f = make_at_least_n_times optimistic_reward min_n) ∨
  f = boltzmann_exploration.

(** [reads_to q q']: [q'] is [q] after some reads, which record missing
    entries with the default [0] and change nothing else. *)
Definition reads_to {State Action : Type} `{Countable State, Countable Action}
    (q q' : qtable_t State Action) : Prop :=
  ∀ s a, recorded q' s a = recorded q s a ∨
         (recorded q s a = None ∧ recorded q' s a = Some 0).

(** ** Runs of a learner

    [runs_to cls l l'] when [l'] is reached from [l] by a sequence of
    [step] and [set_reward] calls that return. *)

Section Runs.
Context {Percept State Action : Type} `{Countable State, Countable Action}.
Variable update_state : Percept → State.
Variable actions : State → list Action.

Inductive runs_to (cls : learner_class)
    : @QLearner State Action _ _ _ _ → @QLearner State Action _ _ _ _ → Prop :=
  | runs_refl l : runs_to cls l l
  | runs_step l percept rnd ca l1 l2 :
      step update_state actions cls l percept rnd = Ok (ca, l1) →
      runs_to cls l1 l2 → runs_to cls l l2
  | runs_set_reward l reward terminal l2 :
      runs_to cls (set_reward l reward terminal) l2 → runs_to cls l l2.

End Runs.

(** ** A small problem to run the learners on

    States, actions and percepts are numbers; state [0] offers the actions
    [0] and [1], every other state is terminal-like and offers none. *)

Definition constant_temperature (t : R) : Z → result R := λ _, Ok t.

(** The default [update_state]: the percept is the state. *)
Definition example_update_state (percept : nat) : nat := percept.

Definition example_actions (state : nat) : list nat :=
  match state with
  | O => [0%nat; 1%nat]
  | _ => []
  end.

Definition example_learner (q : option (qtable_t nat nat)) (discount_factor : R)
    : @QLearner nat nat _ _ _ _ :=
  QLearner_init (make_at_least_n_times 1 1) discount_factor
    (constant_temperature 1) q.

(** ** Monitoring: [PerformanceCounter]

    A monitored learner is a learner with the attributes
    [PerformanceCounter.__init__] adds to it.  The learners handed to one
    [PerformanceCounter] are taken to be distinct objects, each wrapped
    once, so that [learner.old_set_reward] is [QLearner.set_reward].  The
    plotting methods are not modelled. *)

Section Monitoring.
Context {State Action : Type} `{Countable State, Countable Action}.

Record monitored := {
  learner : @QLearner State Action _ _ _ _;
  accumulated_rewards : list R;
  known_states : list nat;
  temperatures : list R;
  name : string
}.

(** The closure [set_reward] that [update_set_reward] installs on a
    learner.  [last] is [None] exactly when [len(...) > 0] fails, and is
    [accumulated_rewards[-1]] otherwise. *)
Definition monitored_set_reward (m : monitored) (reward : R) (terminal : bool)
    : result monitored :=
  m ← (if terminal
       then
         let acc :=
           match last (accumulated_rewards m) with
           | Some total => accumulated_rewards m ++ [total + reward]
           | None => accumulated_rewards m ++ [reward]
           end in
         let known := known_states m ++ [size (Q (learner m))] in
         t ← temperature_function (learner m) (trials (learner m));
         Ok {| learner := learner m; accumulated_rewards := acc;
               known_states := known; temperatures := temperatures m ++ [t];
               name := name m |}
       else Ok m);
  Ok {| learner := set_reward (learner m) reward terminal;
        accumulated_rewards := accumulated_rewards m;
        known_states := known_states m; temperatures := temperatures m;
        name := name m |}.

(** The loop of [PerformanceCounter.__init__], from index [i] on. *)
Fixpoint PerformanceCounter_init_from (i : nat)
    (learners : list (@QLearner State Action _ _ _ _))
    (names : option (list string)) : result (list monitored) :=
  match learners with
  | [] => Ok []
  | l :: learners' =>
      nm ← match names with
           | None => Ok ("Learner " +:+ pretty i)
           | Some names => list_getitem names i
           end;
      ms ← PerformanceCounter_init_from (S i) learners' names;
      Ok ({| learner := l; accumulated_rewards := []; known_states := [];
             temperatures := []; name := nm |} :: ms)
  end.

Definition PerformanceCounter_init
    (learners : list (@QLearner State Action _ _ _ _))
    (names : option (list string)) : result (list monitored) :=
  PerformanceCounter_init_from 0 learners names.

End Monitoring.

(** A monitored run: steps of the learner and calls of the installed
    [set_reward], with the terminal rewards it was given, in order. *)

Section MonitoredRuns.
Context {Percept State Action : Type} `{Countable State, Countable Action}.
Variable update_state : Percept → State.
Variable actions : State → list Action.

Inductive monitored_run (cls : learner_class)
    : @monitored State Action _ _ _ _ → list R →
      @monitored State Action _ _ _ _ → Prop :=
  | monitored_run_refl m : monitored_run cls m [] m
  | monitored_run_step m percept rnd ca l1 rewards m2 :
      step update_state actions cls (learner m) percept rnd = Ok (ca, l1) →
      monitored_run cls
        {| learner := l1; accumulated_rewards := accumulated_rewards m;
           known_states := known_states m; temperatures := temperatures m;
           name := name m |} rewards m2 →
      monitored_run cls m rewards m2
  | monitored_run_reward m reward terminal m1 rewards m2 :
      monitored_set_reward m reward terminal = Ok m1 →
      monitored_run cls m1 rewards m2 →
      monitored_run cls m
        (if terminal then reward :: rewards else rewards) m2.

End MonitoredRuns.

(** The running totals of a sequence of rewards, from a total [total]. *)
Fixpoint running_totals (total : R) (rewards : list R) : list R :=
  match rewards with
  | [] => []
  | reward :: rewards' => (total + reward) :: running_totals (total + reward) rewards'
  end.

(** The example learner, as a fresh [PerformanceCounter] leaves it. *)
Definition example_monitored : @monitored nat nat _ _ _ _ :=
  {| learner := example_learner None 0.9; accumulated_rewards := [];
     known_states := []; temperatures := []; name := "Learner 0" |}.

(** * Floating-point arithmetic

    The tables of the learner only store, compare and combine numbers, and
    what is proved about them does not depend on how an operation rounds.
    The temperature schedule and the softmax strategy are different:
    whether they return, and what, depends on the range of a double and on
    rounding.  The two functions are therefore written once more over an
    arithmetic given by its operations ([Fp.Arith]), with nothing assumed
    about exactness, and the arithmetic of Python on IEEE 754 binary64 is
    given as an instance ([Double.arith]). *)

Module Fp.

(** The operations of Python's [float] that the two functions use. *)
Class Arith (F : Type) := {
  lit_0 : F;                          (* [0.0] *)
  lit_1 : F;                          (* [1.0] *)
  lit_0_01 : F;                       (* the literal [0.01] *)
  float_of_int : Z → result F;       (* [float(n)], implicit in [n * alpha] *)
  add : F → F → F;
  sub : F → F → F;
  mul : F → F → F;
  truediv : F → F → F;                (* [x / y] for a divisor that is not zero *)
  eqb : F → F → bool;                 (* [x == y] *)
  ltb : F → F → bool;                 (* [x < y], and [y > x] *)
  leb : F → F → bool;                 (* [x <= y], and [y >= x] *)
  isfinite : F → bool;                (* [math.isfinite(x)] *)
  math_exp : F → result F             (* [math.exp(x)] *)
}.

(** The random source, with the draw of [random.random] in the arithmetic. *)
Record rand (F : Type) := { rand_choice : nat; rand_random : F }.

Arguments rand_choice {F} _.
Arguments rand_random {F} _.

Section Code.
Context {F : Type} `{Arith F}.

(** [x <= y] holds. *)
Definition Le (x y : F) : Prop := leb x y = true.

(** [x / y]: Python raises on a zero divisor instead of returning an
    infinity or a NaN. *)
Definition py_div (x y : F) : result F :=
  if eqb y lit_0 then Raise ZeroDivisionError else Ok (truediv x y).

(** [max(a, b)] and [min(a, b)]: the first argument is kept unless the
    second is greater (smaller). *)
Definition py_max2 (a b : F) : F := if ltb a b then b else a.

Definition py_min2 (a b : F) : F := if ltb b a then b else a.

Definition py_max (l : list F) : result F :=
  match l with
  | [] => Raise ValueError
  | x :: l' => Ok (foldl py_max2 x l')
  end.

Definition py_min (l : list F) : result F :=
  match l with
  | [] => Raise ValueError
  | x :: l' => Ok (foldl py_min2 x l')
  end.

(** [sum(iterable)]: starts from [0] and adds the items from left to
    right.  (From version 3.12 on, CPython's [sum] compensates the rounding
    errors of float items; the module predates it.) *)
Definition py_sum (l : list F) : F := foldl add lit_0 l.

(** [random.choice(seq)] *)
Definition random_choice {A} (rnd : rand F) (seq : list A) : result A :=
  match seq with
  | [] => Raise IndexError
  | _ => list_getitem seq (rand_choice rnd mod length seq)
  end.

(** [make_exponential_temperature(initial_temperature, alpha)]: the closure
    [_function].  Only [OverflowError] is caught. *)
Definition make_exponential_temperature (initial_temperature alpha : F)
    : Z → result F :=
  λ n,
    try_except
      (x ← float_of_int n;
       e ← math_exp (mul x alpha);
       py_div initial_temperature e)
      OverflowError
      (Ok lit_0_01).

Section Exploration.
Context {Action : Type} `{Countable Action}.

(** [[utilities[x] for x in actions]] on the default-0 row. *)
Fixpoint read_utilities (actions : list Action) (utilities : gmap (option Action) F)
    : list F * gmap (option Action) F :=
  match actions with
  | [] => ([], utilities)
  | x :: xs =>
      let '(v, u1) := defaultdict_getitem lit_0 utilities (Some x) in
      let '(vs, u2) := read_utilities xs u1 in
      (v :: vs, u2)
  end.

(** The [while i < len(actions) and r >= tot] loop.  [rest] is
    [probs[i+1:]]: [probs[i]] after [i += 1] is its head, and [IndexError]
    when it is exhausted. *)
Fixpoint boltzmann_loop (n : nat) (r : F) (rest : list F) (i : nat) (tot : F)
    {struct rest} : result nat :=
  if bool_decide (i < n)%nat && leb tot r
  then
    match rest with
    | [] => Raise IndexError
    | p :: rest' => boltzmann_loop n r rest' (S i) (add tot p)
    end
  else Ok i.

Definition boltzmann_exploration (actions : list Action)
    (utilities : gmap (option Action) F) (temperature : F)
    (action_counter : gmap (option Action) Z) (rnd : rand F)
    : result (Action * gmap (option Action) F) :=
  let '(us, utilities') := read_utilities actions utilities in
  let temperature := py_max2 temperature lit_0_01 in
  _max ← py_max us;
  _min ← py_min us;
  if eqb _max _min
  then x ← random_choice rnd actions; Ok (x, utilities')
  else
    us ← mapM (λ u, d ← py_div (sub u _min) (sub _max _min);
                     q ← py_div d temperature;
                     math_exp q) us;
    probs ← mapM (λ u, py_div u (py_sum us)) us;
    tot ← list_getitem probs 0;
    let r := rand_random rnd in
    i ← boltzmann_loop (length actions) r (drop 1 probs) 0 tot;
    x ← list_getitem actions i;
    Ok (x, utilities').

End Exploration.
End Code.

(** What rounding to nearest preserves of the order, and what is expected
    of [math.exp]: conversion, multiplication by a non-negative factor and
    [math.exp] are monotone, [math.exp] is at least [1] on a non-negative
    argument, and a quotient by a divisor that is at least [1] shrinks as
    the divisor grows.  IEEE 754 arithmetic has these properties; nothing
    here says that an operation is exact or that a result is not zero. *)
Class Monotone (F : Type) `{Arith F} : Prop := {
  Le_trans (x y z : F) : Le x y → Le y z → Le x z;
  float_of_int_mono (n1 n2 : Z) (x1 x2 : F) :
    (0 ≤ n1 ≤ n2)%Z → float_of_int n1 = Ok x1 → float_of_int n2 = Ok x2 →
    isfinite x1 = true ∧ isfinite x2 = true ∧ Le lit_0 x1 ∧ Le x1 x2;
  mul_mono (a x1 x2 : F) :
    isfinite a = true → Le lit_0 a →
    isfinite x1 = true → isfinite x2 = true → Le lit_0 x1 → Le x1 x2 →
    Le lit_0 (mul x1 a) ∧ Le (mul x1 a) (mul x2 a);
  math_exp_mono (p1 p2 e1 e2 : F) :
    Le p1 p2 → math_exp p1 = Ok e1 → math_exp p2 = Ok e2 → Le e1 e2;
  math_exp_ge_1 (p e : F) : Le lit_0 p → math_exp p = Ok e → Le lit_1 e;
  truediv_mono (x e1 e2 : F) :
    isfinite x = true → Le lit_0 x → Le lit_1 e1 → Le e1 e2 →
    Le lit_0 (truediv x e2) ∧ Le (truediv x e2) (truediv x e1) ∧
    Le (truediv x e1) x;
  ge_1_nonzero (e : F) : Le lit_1 e → eqb e lit_0 = false
}.

End Fp.

(** ** Python's [float]: IEEE 754 binary64 *)

Module Double.

#[local] Set Warnings "-inexact-float".

(** [float(n)]: the integer is rounded to the nearest double, ties to even;
    [OverflowError] when that is no finite double, that is from
    [2^1024 - 2^970] on. *)
Definition py_float (n : Z) : result float :=
  let x := SF2Prim (binary_normalize 53 1024 n 0 false) in
  if is_infinity x then Raise OverflowError else Ok x.

(** C's [exp].  ISO C fixes the values at the zeros, the infinities and NaN.
    From [1024] on the exact value exceeds every double by hundreds of
    orders of magnitude and the result is [+inf]; up to [-1024] it is as
    far below the smallest positive double and the result is [+0].  In
    between the result is whatever the platform's library [libm] computes;
    nothing is assumed about it. *)
Definition c_exp (libm : float → float) (x : float) : float :=
  if is_nan x then nan
  else if PrimFloat.eqb x 0 then 1%float
  else if PrimFloat.leb 1024 x then infinity
  else if PrimFloat.leb x (-1024) then 0%float
  else libm x.

(** [math.exp(x)]: a NaN from an argument that is none is a domain error,
    an infinity from a finite argument a range error. *)
Definition math_exp (libm : float → float) (x : float) : result float :=
  let r := c_exp libm x in
  if is_nan r && negb (is_nan x) then Raise ValueError
  else if is_infinity r && is_finite x then Raise OverflowError
  else Ok r.

(** The arithmetic of Python's [float] on a platform whose library is
    [libm]. *)
Definition arith (libm : float → float) : Fp.Arith float := {|
  Fp.lit_0 := 0%float;
  Fp.lit_1 := 1%float;
  Fp.lit_0_01 := 0.01%float;
  Fp.float_of_int := py_float;
  Fp.add := PrimFloat.add;
  Fp.sub := PrimFloat.sub;
  Fp.mul := PrimFloat.mul;
  Fp.truediv := PrimFloat.div;
  Fp.eqb := PrimFloat.eqb;
  Fp.ltb := PrimFloat.ltb;
  Fp.leb := PrimFloat.leb;
  Fp.isfinite := is_finite;
  Fp.math_exp := math_exp libm
|}.

(** The two functions in this arithmetic. *)
Definition make_exponential_temperature (libm : float → float)
    : float → float → Z → result float :=
  @Fp.make_exponential_temperature float (arith libm).

Definition boltzmann_exploration (libm : float → float)
    {Action : Type} `{Countable Action}
    : list Action → gmap (option Action) float → float →
      gmap (option Action) Z → Fp.rand float →
      result (Action * gmap (option Action) float) :=
  @Fp.boltzmann_exploration float (arith libm) Action _ _.

(** The largest value of [random.random()], [1 - 2^-53]. *)
Definition random_max : float := 0x1.fffffffffffffp-1%float.

End Double.

(** ** Exact arithmetic

    The real numbers with the numerics of the first part: an arithmetic
    in which nothing is rounded. *)

#[global] Instance Rle_decision (x y : R) : Decision (x <= y) := Rle_dec x y.

#[global] Instance real_arith : Fp.Arith R := {|
  Fp.lit_0 := 0;
  Fp.lit_1 := 1;
  Fp.lit_0_01 := 0.01;
  Fp.float_of_int := py_float;
  Fp.add := Rplus;
  Fp.sub := Rminus;
  Fp.mul := Rmult;
  Fp.truediv := Rdiv;
  Fp.eqb := λ x y, bool_decide (x = y);
  Fp.ltb := λ x y, bool_decide (x < y);
  Fp.leb := λ x y, bool_decide (x <= y);
  Fp.isfinite := λ _, true;
  Fp.math_exp := math_exp
|}.

(** * Properties *)

(** ** The error monad and Python numerics *)

Lemma bind_Ok {A B} (m : result A) (f : A → result B) (b : B) :
  m ≫= f = Ok b ↔ ∃ a, m = Ok a ∧ f a = Ok b.
Proof.
  destruct m as [a|e]; simpl; split.
  - eauto.
  - by intros (? & [= <-] & ?).
  - done.
  - by intros (? & [=] & _).
Qed.







Lemma py_min2_le_l (a b : R) : py_min2 a b <= a.
Proof. unfold py_min2. case_decide; lra. Qed.

Lemma py_max2_ge_r (a b : R) : b <= py_max2 a b.
Proof. unfold py_max2. case_decide; lra. Qed.

(** ** Temperature schedule *)



(** ** Containers *)

Lemma foldl_py_max2_spec (l : list R) (x : R) :
  (foldl py_max2 x l = x ∨ foldl py_max2 x l ∈ l) ∧
  x <= foldl py_max2 x l ∧ ∀ v, v ∈ l → v <= foldl py_max2 x l.
Proof.
  revert x. induction l as [|y l IH]; intros x; simpl.
  - split; [by left|]. split; [lra|]. by intros v ?%elem_of_nil.
  - destruct (IH (py_max2 x y)) as (Hin & Hle & Hall).
    assert (Hx : x <= py_max2 x y) by (unfold py_max2; case_decide; lra).
    pose proof (py_max2_ge_r x y) as Hy.
    split; [|split].
    + destruct Hin as [Heq|Hin]; [|right; by right].
      rewrite Heq. unfold py_max2. case_decide; [right; left|by left].
    + lra.
    + intros v [->|Hv]%elem_of_cons; [lra|by apply Hall].
Qed.

(** [max] of a non-empty sequence is one of its elements and bounds them
    all; of an empty sequence it raises [ValueError]. *)
Lemma py_max_Ok (l : list R) (m : R) :
  py_max l = Ok m → m ∈ l ∧ ∀ v, v ∈ l → v <= m.
Proof.
  destruct l as [|x l]; [done|]. intros [= <-].
  destruct (foldl_py_max2_spec l x) as (Hin & Hle & Hall). split.
  - destruct Hin as [->|Hin]; [left|by right].
  - intros v [->|Hv]%elem_of_cons; [done|by apply Hall].
Qed.

Lemma py_max_nonempty (l : list R) : l ≠ [] → ∃ m, py_max l = Ok m.
Proof. destruct l; [done|]. simpl. eauto. Qed.

Lemma foldl_py_min2_spec (l : list R) (x : R) :
  (foldl py_min2 x l = x ∨ foldl py_min2 x l ∈ l) ∧
  foldl py_min2 x l <= x ∧ ∀ v, v ∈ l → foldl py_min2 x l <= v.
Proof.
  revert x. induction l as [|y l IH]; intros x; simpl.
  - split; [by left|]. split; [lra|]. by intros v ?%elem_of_nil.
  - destruct (IH (py_min2 x y)) as (Hin & Hle & Hall).
    pose proof (py_min2_le_l x y) as Hx.
    assert (Hy : py_min2 x y <= y) by (unfold py_min2; case_decide; lra).
    split; [|split].
    + destruct Hin as [Heq|Hin]; [|right; by right].
      rewrite Heq. unfold py_min2. case_decide; [right; left|by left].
    + lra.
    + intros v [->|Hv]%elem_of_cons; [lra|by apply Hall].
Qed.

Lemma py_min_Ok (l : list R) (m : R) :
  py_min l = Ok m → m ∈ l ∧ ∀ v, v ∈ l → m <= v.
Proof.
  destruct l as [|x l]; [done|]. intros [= <-].
  destruct (foldl_py_min2_spec l x) as (Hin & Hle & Hall). split.
  - destruct Hin as [->|Hin]; [left|by right].
  - intros v [->|Hv]%elem_of_cons; [done|by apply Hall].
Qed.

Lemma py_min_nonempty (l : list R) : l ≠ [] → ∃ m, py_min l = Ok m.
Proof. destruct l; [done|]. simpl. eauto. Qed.

Lemma elem_of_dict_values `{Countable K} {V} (d : gmap K V) (v : V) :
  v ∈ dict_values d ↔ ∃ k, d !! k = Some v.
Proof.
  unfold dict_values. rewrite list_elem_of_fmap. split.
  - intros ([k v'] & -> & Hin). exists k. by apply elem_of_map_to_list.
  - intros (k & Hk). exists (k, v). split; [done|]. by apply elem_of_map_to_list.
Qed.

Lemma dict_values_empty `{Countable K} {V} : dict_values (∅ : gmap K V) = [].
Proof. unfold dict_values. by rewrite map_to_list_empty. Qed.

Section Tables.
Context {State Action : Type} `{Countable State, Countable Action}.
Implicit Types (s : option State) (a : option Action).

Lemma table_row_fst {V} (table : gmap (option State) (gmap (option Action) V)) s :
  (table_row table s).1 = default ∅ (table !! s).
Proof. unfold table_row, defaultdict_getitem. by destruct (table !! s). Qed.

Lemma table_row_snd {V} (table : gmap (option State) (gmap (option Action) V)) s :
  (table_row table s).2 = <[s := default ∅ (table !! s)]> table.
Proof.
  unfold table_row, defaultdict_getitem.
  destruct (table !! s) eqn:Hs; simpl; [|done]. by rewrite insert_id.
Qed.

Lemma table_row_eq {V} (table : gmap (option State) (gmap (option Action) V)) s :
  table_row table s = (default ∅ (table !! s), <[s := default ∅ (table !! s)]> table).
Proof.
  unfold table_row, defaultdict_getitem.
  destruct (table !! s) eqn:Hs; simpl; [|done]. by rewrite insert_id.
Qed.

Lemma recorded_row {V} (table : gmap (option State) (gmap (option Action) V)) s a :
  recorded table s a = default ∅ (table !! s) !! a.
Proof. unfold recorded. by destruct (table !! s). Qed.

Lemma recorded_insert_row {V} (table : gmap (option State) (gmap (option Action) V))
    s (row : gmap (option Action) V) s' a' :
  recorded (<[s := row]> table) s' a' =
    if decide (s = s') then row !! a' else recorded table s' a'.
Proof.
  unfold recorded. case_decide as Hs.
  - subst. by rewrite lookup_insert_eq.
  - by rewrite lookup_insert_ne.
Qed.

(** Reading a row inserts it when missing, but records no entry. *)
Lemma recorded_table_row {V} (table : gmap (option State) (gmap (option Action) V))
    s s' a' :
  recorded (table_row table s).2 s' a' = recorded table s' a'.
Proof.
  rewrite table_row_snd, recorded_insert_row. case_decide; [subst|done].
  by rewrite recorded_row.
Qed.

Lemma Q_getitem_fst (q : qtable_t State Action) s a :
  (Q_getitem q s a).1 = Q_value q s a.
Proof.
  unfold Q_getitem, Q_value, defaultdict_getitem.
  rewrite table_row_eq, recorded_row.
  by destruct (default ∅ (q !! s) !! a).
Qed.

(** Reading [Q[s][a]] records the entry (with the value it stood for) and
    leaves every other entry as it was. *)
Lemma recorded_Q_getitem (q : qtable_t State Action) s a s' a' :
  recorded (Q_getitem q s a).2 s' a' =
    if decide (s = s' ∧ a = a') then Some (Q_value q s a) else recorded q s' a'.
Proof.
  unfold Q_getitem, Q_value, defaultdict_getitem.
  rewrite table_row_eq, (recorded_row q s a).
  destruct (default ∅ (q !! s) !! a) as [v|] eqn:Hv; simpl;
    rewrite !recorded_insert_row;
    destruct (decide (s = s')) as [<-|Hs];
    try (by rewrite decide_False by (by intros [??]));
    destruct (decide (a = a')) as [<-|Ha].
  - rewrite decide_True by done. done.
  - rewrite decide_False by (by intros [??]). by rewrite recorded_row.
  - rewrite decide_True by done. by rewrite lookup_insert_eq.
  - rewrite decide_False by (by intros [??]). rewrite lookup_insert_ne by done.
    by rewrite recorded_row.
Qed.

Lemma Q_value_Q_getitem (q : qtable_t State Action) s a s' a' :
  Q_value (Q_getitem q s a).2 s' a' = Q_value q s' a'.
Proof.
  unfold Q_value at 1. rewrite recorded_Q_getitem.
  case_decide as Heq; [|done]. by destruct Heq as [<- <-].
Qed.

Lemma Q_getitem_eq (q : qtable_t State Action) s a :
  Q_getitem q s a = (Q_value q s a, (Q_getitem q s a).2).
Proof. rewrite <- Q_getitem_fst. by destruct (Q_getitem q s a). Qed.

Lemma recorded_Q_setitem (q : qtable_t State Action) s a v s' a' :
  recorded (Q_setitem q s a v) s' a' =
    if decide (s = s' ∧ a = a') then Some v else recorded q s' a'.
Proof.
  unfold Q_setitem. rewrite table_row_eq, !recorded_insert_row.
  destruct (decide (s = s')) as [<-|Hs].
  - destruct (decide (a = a')) as [<-|Ha].
    + rewrite decide_True by done. by rewrite lookup_insert_eq.
    + rewrite decide_False by (by intros [??]). rewrite lookup_insert_ne by done.
      by rewrite recorded_row.
  - by rewrite decide_False by (by intros [??]).
Qed.

Lemma Q_setitem_other_row (q : qtable_t State Action) s a v s' :
  s ≠ s' → Q_setitem q s a v !! s' = q !! s'.
Proof.
  intros Hs. unfold Q_setitem. rewrite table_row_eq.
  by rewrite !lookup_insert_ne.
Qed.

Lemma recorded_counter_increment (c : ctable_t State Action) s a s' a' :
  recorded (counter_increment c s a) s' a' =
    if decide (s = s' ∧ a = a') then Some (counter_value c s a + 1)%Z
    else recorded c s' a'.
Proof.
  unfold counter_increment, counter_value, counter_getitem.
  rewrite table_row_eq, !recorded_insert_row, (recorded_row c s a).
  destruct (decide (s = s')) as [<-|Hs].
  - destruct (decide (a = a')) as [<-|Ha].
    + rewrite decide_True by done. by rewrite lookup_insert_eq.
    + rewrite decide_False by (by intros [??]). rewrite lookup_insert_ne by done.
      by rewrite recorded_row.
  - by rewrite decide_False by (by intros [??]).
Qed.

End Tables.

(** ** The learner: rewards and update rules *)

Section LearnerFacts.
Context {Percept State Action : Type} `{Countable State, Countable Action}.
Variable update_state : Percept → State.
Variable actions : State → list Action.
Implicit Types (l : @QLearner State Action _ _ _ _).

(** C2: a terminal [set_reward] records the reward, counts one more trial
    and overwrites [Q[last_state][last_action]] with exactly the reward. *)
Theorem set_reward_terminal l (reward : R) :
  last_reward (set_reward l reward true) = Some reward ∧
  trials (set_reward l reward true) = (trials l + 1)%Z ∧
  recorded (Q (set_reward l reward true)) (last_state l) (last_action l)
    = Some reward.
Proof.
  split; [done|]. split; [done|]. simpl.
  rewrite recorded_Q_setitem. by rewrite decide_True.
Qed.

(** The action selection of [step] touches the two tables only. *)
Lemma select_action_frame l (state : State) (rnd : rand) ca l1 :
  select_action actions l state rnd = Ok (ca, l1) →
  last_state l1 = last_state l ∧ last_action l1 = last_action l ∧
  last_reward l1 = last_reward l ∧ trials l1 = trials l ∧
  discount_factor l1 = discount_factor l ∧
  temperature_function l1 = temperature_function l ∧
  exploration_function l1 = exploration_function l.
Proof.
  unfold select_action. case_bool_decide; [|by intros [= <- <-]].
  rewrite !table_row_eq.
  destruct (temperature_function l (trials l)) as [t|]; simpl; [|done].
  destruct (exploration_function l _ _ _ _ _) as [[x row']|]; simpl; [|done].
  by intros [= <- <-].
Qed.

(** C7: [set_reward] leaves [last_state], [last_action] and the visitation
    counter alone.  A non-terminal call changes [last_reward] only; a
    terminal call changes [last_reward], [trials] and the one entry
    [Q[last_state][last_action]].  The step that follows a terminal call
    therefore still runs the update rule on the pair recorded before it. *)
Theorem set_reward_frame l (reward : R) (terminal : bool) :
  let l' := set_reward l reward terminal in
  last_state l' = last_state l ∧ last_action l' = last_action l ∧
  counter l' = counter l ∧
  exploration_function l' = exploration_function l ∧
  discount_factor l' = discount_factor l ∧
  temperature_function l' = temperature_function l ∧
  last_reward l' = Some reward ∧
  (if terminal
   then trials l' = (trials l + 1)%Z ∧
        (∀ s, s ≠ last_state l → Q l' !! s = Q l !! s) ∧
        (∀ s a, ¬ (s = last_state l ∧ a = last_action l) →
                recorded (Q l') s a = recorded (Q l) s a)
   else trials l' = trials l ∧ Q l' = Q l) ∧
  ∀ (rule : update_rule_t) (percept : Percept) (rnd : rand),
    step_with update_state actions rule (set_reward l reward true) percept rnd =
      '(current_action, l1) ←
         select_action actions (set_reward l reward true) (update_state percept) rnd;
      l2 ← match last_state l with
           | Some s =>
               rule (set_counter
                       (counter_increment (counter l1) (Some s) (last_action l)) l1)
                    s (last_action l) (Some reward) (update_state percept)
                    current_action
           | None => Ok l1
           end;
      Ok (current_action, set_last (Some (update_state percept)) current_action l2).
Proof.
  simpl. repeat (split; [by destruct terminal|]). split.
  - destruct terminal; [|done]. simpl. split; [done|]. split.
    + intros s Hs. by rewrite Q_setitem_other_row.
    + intros s a Hsa. rewrite recorded_Q_setitem.
      rewrite decide_False; [done|]. intros [<- <-]. by apply Hsa.
  - intros rule percept rnd. unfold step_with.
    destruct (select_action _ _ _ _) as [[ca l1]|] eqn:Hsel; simpl; [|done].
    apply select_action_frame in Hsel as (_ & _ & Hr & _). simpl in Hr.
    by rewrite Hr.
Qed.

Lemma update_rule_lr_Ok l (s : State) (a : option Action) (t : R) :
  temperature_function l (counter_value (counter l) (Some s) a) = Ok t →
  update_rule_lr l s a =
    Ok (py_min2 1 t, set_counter (table_row (counter l) (Some s)).2 l).
Proof.
  intros Ht. unfold update_rule_lr, learning_rate, counter_getitem.
  rewrite table_row_eq. simpl.
  unfold counter_value in Ht. rewrite recorded_row in Ht. by rewrite Ht.
Qed.

(** [SARSA_Learner.update_rule] with a reward at hand returns, having
    rewritten [Q[s][a]] and nothing of the session state. *)
Lemma SARSA_update_rule_run l (s : State) (a : option Action) (r : R)
    (cs : State) (ca : option Action) (t : R) :
  temperature_function l (counter_value (counter l) (Some s) a) = Ok t →
  ∃ l',
    SARSA_Learner_update_rule l s a (Some r) cs ca = Ok l' ∧
    recorded (Q l') (Some s) a =
      Some (Q_value (Q l) (Some s) a +
            py_min2 1 t * (r + discount_factor l * Q_value (Q l) (Some cs) ca
                           - Q_value (Q l) (Some s) a)) ∧
    last_state l' = last_state l ∧ last_action l' = last_action l.
Proof.
  intros Ht. unfold SARSA_Learner_update_rule.
  rewrite (update_rule_lr_Ok _ _ _ _ Ht). simpl.
  rewrite (Q_getitem_eq (Q l)).
  rewrite (Q_getitem_eq (Q_getitem (Q l) (Some s) a).2 (Some cs) ca). simpl.
  rewrite (Q_getitem_eq (Q_getitem _ (Some cs) ca).2 (Some s) a).
  eexists. split; [done|]. simpl. split; [|done].
  rewrite recorded_Q_setitem, decide_True by done.
  by rewrite !Q_value_Q_getitem.
Qed.

(** C3: [SARSA_Learner.update_rule] moves [Q[s][a]] towards
    [r + discount_factor * Q[cs][ca]] by the learning rate
    [min(1, temperature_function(counter[s][a]))], which is at most [1]. *)
Theorem SARSA_update_rule_spec l (s : State) (a : option Action) (r : R)
    (cs : State) (ca : option Action) (t : R) :
  temperature_function l (counter_value (counter l) (Some s) a) = Ok t →
  ∃ l' lr,
    learning_rate l (counter_value (counter l) (Some s) a) = Ok lr ∧
    lr = py_min2 1 t ∧ lr <= 1 ∧
    SARSA_Learner_update_rule l s a (Some r) cs ca = Ok l' ∧
    recorded (Q l') (Some s) a =
      Some (Q_value (Q l) (Some s) a +
            lr * (r + discount_factor l * Q_value (Q l) (Some cs) ca
                  - Q_value (Q l) (Some s) a)).
Proof.
  intros Ht.
  destruct (SARSA_update_rule_run l s a r cs ca t Ht) as (l' & Hrun & HQ & _).
  exists l', (py_min2 1 t).
  split; [unfold learning_rate; by rewrite Ht|].
  split; [done|]. split; [apply py_min2_le_l|]. done.
Qed.

(** What [Q[cs]] holds when [TD_QLearner.update_rule] takes its maximum:
    the target [Q[s][a]] has been read, and so recorded, by then. *)
Lemma recorded_utilities_after_read (q : qtable_t State Action)
    (s : State) (a : option Action) (cs : State) (v : R) :
  v ∈ recorded_utilities (Q_getitem q (Some s) a).2 (Some cs) ↔
    (∃ a', recorded q (Some cs) a' = Some v) ∨
    (cs = s ∧ v = Q_value q (Some s) a).
Proof.
  unfold recorded_utilities. rewrite elem_of_dict_values.
  setoid_rewrite <- recorded_row. setoid_rewrite recorded_Q_getitem. split.
  - intros (a' & Ha'). case_decide as Heq.
    + right. destruct Heq as [[= ->] _]. by injection Ha' as <-.
    + left. eauto.
  - intros [(a' & Ha')|[-> ->]].
    + exists a'. case_decide as Heq; [|done].
      destruct Heq as [[= ->] ->]. f_equal. unfold Q_value. by rewrite Ha'.
    + exists a. by rewrite decide_True.
Qed.

(** [TD_QLearner.update_rule] on a successor with recorded utilities (or on
    [cs = s]): the update of the specification, with [M] the maximum of
    [Q[cs].values()] as it stands when [max] is called: the utilities
    recorded for [cs], and, when [cs = s], the target [Q[s][a]], which has
    been read by then. *)
Lemma TD_update_rule_spec l (s : State) (a : option Action) (r : R)
    (cs : State) (ca : option Action) (t : R) :
  temperature_function l (counter_value (counter l) (Some s) a) = Ok t →
  cs = s ∨ recorded_utilities (Q l) (Some cs) ≠ [] →
  ∃ l' M,
    TD_QLearner_update_rule l s a (Some r) cs ca = Ok l' ∧
    recorded (Q l') (Some s) a =
      Some (Q_value (Q l) (Some s) a +
            py_min2 1 t * (r + discount_factor l * M - Q_value (Q l) (Some s) a)) ∧
    ((∃ a', recorded (Q l) (Some cs) a' = Some M) ∨
     (cs = s ∧ M = Q_value (Q l) (Some s) a)) ∧
    (∀ a' v, recorded (Q l) (Some cs) a' = Some v → v <= M) ∧
    (cs = s → Q_value (Q l) (Some s) a <= M).
Proof.
  intros Ht Hcs.
  unfold TD_QLearner_update_rule.
  rewrite (update_rule_lr_Ok _ _ _ _ Ht). simpl.
  rewrite (Q_getitem_eq (Q l)), table_row_eq.
  fold (recorded_utilities (Q_getitem (Q l) (Some s) a).2 (Some cs)).
  destruct (py_max_nonempty (recorded_utilities (Q_getitem (Q l) (Some s) a).2 (Some cs)))
    as [M HM].
  { intros Hnil.
    assert (Hno : ∀ v, v ∉ recorded_utilities (Q_getitem (Q l) (Some s) a).2 (Some cs))
      by (intros v; rewrite Hnil; apply not_elem_of_nil).
    destruct Hcs as [->|Hne].
    - apply (Hno (Q_value (Q l) (Some s) a)).
      apply recorded_utilities_after_read. by right.
    - destruct (recorded_utilities (Q l) (Some cs)) as [|v vs] eqn:Hvs; [done|].
      assert (Hv : v ∈ recorded_utilities (Q l) (Some cs)) by (rewrite Hvs; left).
      unfold recorded_utilities in Hv. apply elem_of_dict_values in Hv as (a' & Ha').
      rewrite <- recorded_row in Ha'.
      apply (Hno v), recorded_utilities_after_read. left. eauto. }
  exists (set_Q (Q_setitem
            (Q_getitem (<[Some cs := default ∅ ((Q_getitem (Q l) (Some s) a).2 !! Some cs)]>
                          (Q_getitem (Q l) (Some s) a).2) (Some s) a).2
            (Some s) a
            (Q_value (Q l) (Some s) a +
             py_min2 1 t * (r + discount_factor l * M - Q_value (Q l) (Some s) a)))
          (set_counter (table_row (counter l) (Some s)).2 l)), M.
  rewrite HM. simpl.
  rewrite (Q_getitem_eq (<[Some cs := _]> _)). simpl.
  rewrite <- table_row_snd.
  assert (HQ : Q_value (table_row (Q_getitem (Q l) (Some s) a).2 (Some cs)).2 (Some s) a
               = Q_value (Q l) (Some s) a).
  { unfold Q_value at 1. by rewrite recorded_table_row, recorded_Q_getitem, decide_True. }
  rewrite HQ. split; [done|].
  split; [by rewrite recorded_Q_setitem, decide_True|].
  apply py_max_Ok in HM as [Hin Hall]. split; [|split].
  - by apply recorded_utilities_after_read in Hin.
  - intros a' v Hv. apply Hall, recorded_utilities_after_read. left. eauto.
  - intros ->. apply Hall, recorded_utilities_after_read. by right.
Qed.

(** [TD_QLearner.update_rule] on a successor other than [s] for which no
    utility is recorded: [max] of the empty [Q[cs].values()] raises. *)
Lemma TD_update_rule_unvisited_successor l (s : State) (a : option Action)
    (r : option R) (cs : State) (ca : option Action) (t : R) :
  temperature_function l (counter_value (counter l) (Some s) a) = Ok t →
  cs ≠ s → recorded_utilities (Q l) (Some cs) = [] →
  TD_QLearner_update_rule l s a r cs ca = Raise ValueError.
Proof.
  intros Ht Hcs Hnil.
  unfold TD_QLearner_update_rule.
  rewrite (update_rule_lr_Ok _ _ _ _ Ht). simpl.
  rewrite (Q_getitem_eq (Q l)), table_row_eq.
  fold (recorded_utilities (Q_getitem (Q l) (Some s) a).2 (Some cs)).
  destruct (recorded_utilities (Q_getitem (Q l) (Some s) a).2 (Some cs))
    as [|v vs] eqn:Hvs; [done|].
  assert (Hv : v ∈ recorded_utilities (Q_getitem (Q l) (Some s) a).2 (Some cs))
    by (rewrite Hvs; left).
  apply recorded_utilities_after_read in Hv as [(a' & Ha')|[-> _]]; [|done].
  assert (Hin : v ∈ recorded_utilities (Q l) (Some cs)).
  { unfold recorded_utilities. apply elem_of_dict_values. exists a'.
    by rewrite <- recorded_row. }
  rewrite Hnil in Hin. by apply elem_of_nil in Hin.
Qed.

End LearnerFacts.

(** ** Exploration strategies *)

Lemma argmax_from_spec {A} (f : A → R) (function : A → result R) (l : list A) :
  (∀ x, x ∈ l → function x = Ok (f x)) →
  ∀ best, ∃ a,
    argmax_from best (f best) l function = Ok a ∧
    ((a = best ∧ ∀ x, x ∈ l → f x <= f best) ∨
     (∃ l1 l2, l = l1 ++ a :: l2 ∧ f best < f a ∧
               (∀ x, x ∈ l1 → f x < f a) ∧ (∀ x, x ∈ l2 → f x <= f a))).
Proof.
  induction l as [|y l IH]; intros Hf best; simpl.
  - exists best. split; [done|]. left. split; [done|]. by intros x ?%elem_of_nil.
  - rewrite (Hf y) by left. simpl.
    assert (Hf' : ∀ x, x ∈ l → function x = Ok (f x))
      by (intros x Hx; apply Hf; by right).
    case_decide as Hlt.
    + destruct (IH Hf' y) as (a & Hrun & [[Heq Hall]|(l1 & l2 & Hl & Hya & H1 & H2)]).
      * exists a. split; [exact Hrun|]. right. subst a.
        exists [], l. split; [done|]. split; [done|]. split; [|done].
        by intros x ?%elem_of_nil.
      * exists a. split; [exact Hrun|]. right.
        exists (y :: l1), l2. rewrite Hl. split; [done|]. split; [lra|]. split; [|done].
        intros x [->|Hx]%elem_of_cons; [done|by apply H1].
    + destruct (IH Hf' best) as (a & Hrun & [[Heq Hall]|(l1 & l2 & Hl & Hba & H1 & H2)]).
      * exists a. split; [exact Hrun|]. left. split; [done|].
        intros x [->|Hx]%elem_of_cons; [lra|by apply Hall].
      * exists a. split; [exact Hrun|]. right.
        exists (y :: l1), l2. rewrite Hl. split; [done|]. split; [done|]. split; [|done].
        intros x [->|Hx]%elem_of_cons; [lra|by apply H1].
Qed.

(** [argmax] returns the first element of maximal value. *)
Lemma argmax_first_maximum {A} (f : A → R) (function : A → result R) (l : list A) :
  l ≠ [] → (∀ x, x ∈ l → function x = Ok (f x)) →
  ∃ a l1 l2,
    argmax l function = Ok a ∧ l = l1 ++ a :: l2 ∧
    (∀ x, x ∈ l1 → f x < f a) ∧ (∀ x, x ∈ l2 → f x <= f a).
Proof.
  destruct l as [|y l]; [done|]. intros _ Hf. simpl.
  rewrite (Hf y) by left. simpl.
  destruct (argmax_from_spec f function l) with (best := y)
    as (a & -> & [[Heq Hall]|(l1 & l2 & -> & Hya & H1 & H2)]).
  { intros x Hx. apply Hf. by right. }
  - subst a. exists y, [], l. split; [done|]. split; [done|]. split; [|done].
    by intros x ?%elem_of_nil.
  - exists a, (y :: l1), l2. split; [done|]. split; [done|]. split; [|done].
    intros x [->|Hx]%elem_of_cons; [done|by apply H1].
Qed.

Section ExplorationFacts.
Context {Action : Type} `{Countable Action}.
Implicit Types (utilities : utilities_t Action) (actions : list Action).

Lemma defaultdict_getitem_utility utilities (x : Action) :
  (defaultdict_getitem 0 utilities (Some x)).1 = utility_of utilities x.
Proof.
  unfold defaultdict_getitem, utility_of. by destruct (utilities !! Some x).
Qed.

Lemma defaultdict_getitem_lookup utilities (x : Action) (k : option Action) :
  (defaultdict_getitem 0 utilities (Some x)).2 !! k =
    match utilities !! k with
    | Some v => Some v
    | None => if decide (k = Some x) then Some 0 else None
    end.
Proof.
  unfold defaultdict_getitem.
  destruct (utilities !! Some x) as [v|] eqn:Hx; simpl.
  - destruct (utilities !! k) eqn:Hk; [done|].
    case_decide; [congruence|done].
  - destruct (decide (k = Some x)) as [->|Hne].
    + by rewrite lookup_insert_eq, Hx.
    + rewrite lookup_insert_ne by done. by destruct (utilities !! k).
Qed.

(** The comprehension [[utilities[x] for x in actions]] yields the utility
    each action stands for... *)
Lemma read_utilities_fst actions utilities :
  (read_utilities actions utilities).1 = utility_of utilities <$> actions.
Proof.
  revert utilities. induction actions as [|x xs IH]; intros utilities; [done|].
  simpl.
  destruct (defaultdict_getitem 0 utilities (Some x)) as [v u1] eqn:Hget.
  specialize (IH u1). destruct (read_utilities xs u1) as [vs u2]. simpl in *.
  pose proof (defaultdict_getitem_utility utilities x) as Hv.
  rewrite Hget in Hv. simpl in Hv. subst v. f_equal.
  rewrite IH. apply list_fmap_ext. intros _ y _. unfold utility_of.
  pose proof (defaultdict_getitem_lookup utilities x (Some y)) as Hy.
  rewrite Hget in Hy. simpl in Hy. rewrite Hy.
  destruct (utilities !! Some y); [done|]. by case_decide.
Qed.

(** ... and leaves behind a row in which every action read is recorded,
    with [0] if it was not recorded before. *)
Lemma read_utilities_snd actions utilities (k : option Action) :
  (read_utilities actions utilities).2 !! k =
    match utilities !! k with
    | Some v => Some v
    | None => if decide (k ∈ Some <$> actions) then Some 0 else None
    end.
Proof.
  revert utilities. induction actions as [|x xs IH]; intros utilities.
  - simpl. by destruct (utilities !! k).
  - cbn [read_utilities].
    destruct (defaultdict_getitem 0 utilities (Some x)) as [v u1] eqn:Hget.
    specialize (IH u1). destruct (read_utilities xs u1) as [vs u2].
    cbn [fst snd] in *. rewrite IH.
    pose proof (defaultdict_getitem_lookup utilities x k) as Hk.
    rewrite Hget in Hk. simpl in Hk. rewrite Hk.
    destruct (utilities !! k) as [w|]; [done|].
    destruct (decide (k = Some x)) as [->|Hne].
    + rewrite decide_True; [done|]. left.
    + destruct (decide (k ∈ Some <$> xs)) as [Hin|Hnin].
      * rewrite decide_True; [done|]. by right.
      * rewrite decide_False; [done|]. by intros [?|?]%elem_of_cons.
Qed.

Lemma read_utilities_eq actions utilities :
  read_utilities actions utilities =
    (utility_of utilities <$> actions, (read_utilities actions utilities).2).
Proof.
  rewrite <- read_utilities_fst. by destruct (read_utilities actions utilities).
Qed.

Lemma read_utilities_records actions utilities (x : Action) :
  x ∈ actions →
  (read_utilities actions utilities).2 !! Some x = Some (utility_of utilities x).
Proof.
  intros Hx. rewrite read_utilities_snd. unfold utility_of.
  destruct (utilities !! Some x); [done|].
  rewrite decide_True; [done|]. by apply list_elem_of_fmap_2.
Qed.

Lemma override_rarely_tried_effective (optimistic_reward : R) (min_n : Z)
    actions utilities (action_counter : action_counter_t Action) :
  override_rarely_tried optimistic_reward min_n actions action_counter
    (utility_of utilities <$> actions) =
  effective_utility optimistic_reward min_n utilities action_counter <$> actions.
Proof.
  unfold override_rarely_tried.
  induction actions as [|x xs IH]; [done|]. simpl. by f_equal.
Qed.

Lemma dict_of_pairs_lookup (f : Action → R) actions (x : Action) :
  x ∈ actions → dict_of_pairs (zip actions (f <$> actions)) !! x = Some (f x).
Proof.
  unfold dict_of_pairs. generalize (∅ : gmap Action R).
  assert (Hgen : ∀ (d : gmap Action R),
    foldl (λ d p, <[p.1 := p.2]> d) d (zip actions (f <$> actions)) !! x =
      if decide (x ∈ actions) then Some (f x) else d !! x).
  { induction actions as [|y ys IH]; intros d.
    - rewrite decide_False; [done|]. apply not_elem_of_nil.
    - cbn [zip zip_with fmap list_fmap foldl]. rewrite IH. destruct (decide (x ∈ ys)) as [Hin|Hnin].
      + rewrite decide_True; [done|]. by right.
      + destruct (decide (x = y)) as [->|Hne].
        * rewrite decide_True by left. by rewrite lookup_insert_eq.
        * rewrite decide_False by (by intros [?|?]%elem_of_cons).
          by rewrite lookup_insert_ne. }
  intros d Hx. by rewrite Hgen, decide_True.
Qed.

(** C6: for a non-empty action sequence the optimistic strategy returns
    an action of maximum effective utility, the first such action of the
    sequence, where the effective utility of an action tried fewer than
    [min_n] times is [optimistic_reward] and the table utility otherwise. *)
Theorem at_least_n_times_first_maximum (optimistic_reward : R) (min_n : Z)
    actions utilities (temperature : R) (action_counter : action_counter_t Action)
    (rnd : rand) :
  actions ≠ [] →
  ∃ x utilities' before after,
    make_at_least_n_times optimistic_reward min_n actions utilities temperature
      action_counter rnd = Ok (x, utilities') ∧
    actions = before ++ x :: after ∧
    (∀ y, y ∈ before →
       effective_utility optimistic_reward min_n utilities action_counter y <
       effective_utility optimistic_reward min_n utilities action_counter x) ∧
    (∀ y, y ∈ after →
       effective_utility optimistic_reward min_n utilities action_counter y <=
       effective_utility optimistic_reward min_n utilities action_counter x).
Proof.
  intros Hne. unfold make_at_least_n_times.
  rewrite read_utilities_eq, override_rarely_tried_effective.
  destruct (argmax_first_maximum
              (effective_utility optimistic_reward min_n utilities action_counter)
              (λ action,
                 dict_getitem
                   (dict_of_pairs
                      (zip actions
                         (effective_utility optimistic_reward min_n utilities
                            action_counter <$> actions))) action)
              actions Hne)
    as (x & before & after & Hrun & Hsplit & Hb & Ha).
  { intros y Hy. unfold dict_getitem. by rewrite dict_of_pairs_lookup. }
  exists x, (read_utilities actions utilities).2, before, after.
  rewrite Hrun. done.
Qed.

End ExplorationFacts.

(** Two untried actions tie at the optimistic reward: the first is chosen. *)
Lemma at_least_n_times_first_maximum_witness :
  ∃ utilities',
    make_at_least_n_times 1 1 [0%nat; 1%nat] (∅ : utilities_t nat) 1
      (∅ : action_counter_t nat) {| rand_choice := 0; rand_random := 0 |}
      = Ok (0%nat, utilities').
Proof.
  destruct (at_least_n_times_first_maximum 1 1 [0%nat; 1%nat]
              (∅ : utilities_t nat) 1 (∅ : action_counter_t nat)
              {| rand_choice := 0; rand_random := 0 |} ltac:(done))
    as (x & utilities' & before & after & Hrun & Hsplit & Hbefore & _).
  exists utilities'. rewrite Hrun. do 2 f_equal.
  destruct before as [|y before]; [by injection Hsplit|].
  injection Hsplit as <- Hrest.
  specialize (Hbefore 0%nat ltac:(left)).
  destruct before as [|z before]; [|by destruct before].
  injection Hrest as <- _.
  assert (Heff : ∀ y : nat,
            effective_utility 1 1 (∅ : utilities_t nat) (∅ : action_counter_t nat) y = 1)
    by done.
  rewrite !Heff in Hbefore. lra.
Defined.

Lemma exp_le_mono (x y : R) : x <= y → exp x <= exp y.
Proof. intros [Hlt| ->]; [left; by apply exp_increasing|lra]. Qed.

(** ** The learner: steps *)

Section StrategyRows.
Context {Action : Type} `{Countable Action}.
Implicit Types (utilities : utilities_t Action) (actions : list Action).

(** On a non-empty action sequence the optimistic strategy returns. *)
Lemma at_least_n_times_returns (optimistic_reward : R) (min_n : Z)
    actions utilities (temperature : R) (action_counter : action_counter_t Action)
    (rnd : rand) :
  actions ≠ [] →
  ∃ x,
    make_at_least_n_times optimistic_reward min_n actions utilities temperature
      action_counter rnd = Ok (x, (read_utilities actions utilities).2) ∧
    x ∈ actions.
Proof.
  intros Hne. unfold make_at_least_n_times.
  rewrite read_utilities_eq, override_rarely_tried_effective.
  destruct (argmax_first_maximum
              (effective_utility optimistic_reward min_n utilities action_counter)
              (λ action,
                 dict_getitem
                   (dict_of_pairs
                      (zip actions
                         (effective_utility optimistic_reward min_n utilities
                            action_counter <$> actions))) action)
              actions Hne)
    as (x & before & after & Hrun & Hsplit & _).
  { intros y Hy. unfold dict_getitem. by rewrite dict_of_pairs_lookup. }
  exists x. rewrite Hrun. split; [done|].
  rewrite Hsplit. apply elem_of_app. right. left.
Qed.

(** Whatever a provided strategy returns, the row it leaves behind is the
    row it was given after the reads [[utilities[x] for x in actions]]. *)
Lemma provided_exploration_row (f : exploration_t Action) actions utilities
    (temperature : R) (action_counter : action_counter_t Action) (rnd : rand)
    (x : Action) utilities' :
  provided_exploration f →
  f actions utilities temperature action_counter rnd = Ok (x, utilities') →
  utilities' = (read_utilities actions utilities).2.
Proof.
  intros [(o & m & ->)| ->].
  - unfold make_at_least_n_times. rewrite read_utilities_eq.
    destruct (argmax _ _); simpl; [|done]. by intros [= _ <-].
  - unfold boltzmann_exploration. rewrite read_utilities_eq.
    destruct (py_max _); simpl; [|done].
    destruct (py_min _); simpl; [|done].
    case_bool_decide.
    + destruct (random_choice _ _); simpl; [|done]. by intros [= _ <-].
    + destruct (mapM _ _) as [ws|]; simpl; [|done].
      destruct (mapM _ ws); simpl; [|done].
      destruct (list_getitem _ 0%nat); simpl; [|done].
      destruct (boltzmann_loop _ _ _ _ _); simpl; [|done].
      destruct (list_getitem actions _); simpl; [|done]. by intros [= _ <-].
Qed.

End StrategyRows.

Section StepFacts.
Context {Percept State Action : Type} `{Countable State, Countable Action}.
Variable update_state : Percept → State.
Variable actions : State → list Action.
Implicit Types (l : @QLearner State Action _ _ _ _).
Implicit Types (q : qtable_t State Action).

Lemma reads_to_refl q : reads_to q q.
Proof. intros s a. by left. Qed.

Lemma reads_to_trans q1 q2 q3 : reads_to q1 q2 → reads_to q2 q3 → reads_to q1 q3.
Proof.
  intros H12 H23 s a.
  destruct (H12 s a) as [E12|[N1 S2]], (H23 s a) as [E23|[N2 S3]].
  - left. congruence.
  - right. split; congruence.
  - right. split; congruence.
  - congruence.
Qed.

Lemma reads_to_table_row q (s : option State) : reads_to q (table_row q s).2.
Proof. intros s' a'. left. apply recorded_table_row. Qed.

Lemma reads_to_Q_getitem q (s : option State) (a : option Action) :
  reads_to q (Q_getitem q s a).2.
Proof.
  intros s' a'. rewrite recorded_Q_getitem. case_decide as Heq; [|by left].
  destruct Heq as [<- <-]. unfold Q_value.
  destruct (recorded q s a); [by left|by right].
Qed.

(** The row the provided strategies leave behind, put back in the table. *)
Lemma reads_to_read_utilities q (state : State) (acts : list Action) :
  reads_to q
    (<[Some state := (read_utilities acts (table_row q (Some state)).1).2]>
       (table_row q (Some state)).2).
Proof.
  intros s a. rewrite recorded_insert_row.
  case_decide as Heq; [subst s|left; apply recorded_table_row].
  rewrite read_utilities_snd, table_row_fst, <- recorded_row.
  destruct (recorded q (Some state) a); [by left|].
  case_decide; [by right|by left].
Qed.

Lemma reads_to_is_Some q q' (s : option State) (a : option Action) :
  reads_to q q' → is_Some (recorded q s a) → is_Some (recorded q' s a).
Proof.
  intros Hr [v Hv]. destruct (Hr s a) as [->|[? _]]; [eauto|congruence].
Qed.

(** With no legal action, no exploration function is called: the learner
    is left as it is and [current_action] is [None]. *)
Lemma select_action_empty l (state : State) (rnd : rand) :
  actions state = [] → select_action actions l state rnd = Ok (None, l).
Proof. intros Hnil. unfold select_action. by rewrite Hnil. Qed.

(** With a legal action and a provided strategy, the selection reads the
    utility of every action of the state. *)
Lemma select_action_provided l (state : State) (rnd : rand) ca l1 :
  provided_exploration (exploration_function l) →
  actions state ≠ [] →
  select_action actions l state rnd = Ok (ca, l1) →
  Q l1 = <[Some state := (read_utilities (actions state)
                            (table_row (Q l) (Some state)).1).2]>
           (table_row (Q l) (Some state)).2.
Proof.
  intros Hprov Hne. unfold select_action.
  rewrite bool_decide_eq_true_2 by (destruct (actions state); [done|simpl; lia]).
  rewrite (table_row_eq (counter l)).
  destruct (table_row (Q l) (Some state)) as [row q1] eqn:Hrow.
  destruct (temperature_function l (trials l)) as [t|]; simpl; [|done].
  destruct (exploration_function l _ _ _ _ _) as [[x row']|] eqn:Hex; simpl; [|done].
  apply provided_exploration_row in Hex; [|done]. subst row'.
  by intros [= <- <-].
Qed.

Lemma select_action_reads l (state : State) (rnd : rand) ca l1 :
  provided_exploration (exploration_function l) →
  select_action actions l state rnd = Ok (ca, l1) →
  reads_to (Q l) (Q l1).
Proof.
  intros Hprov Hsel. destruct (decide (actions state = [])) as [Hnil|Hne].
  - rewrite select_action_empty in Hsel by done. injection Hsel as <- <-.
    apply reads_to_refl.
  - rewrite (select_action_provided _ _ _ _ _ Hprov Hne Hsel).
    apply reads_to_read_utilities.
Qed.

(** An update rule that returns has recorded [Q[s][a]], read (and so
    possibly recorded with [0]) other entries, and changed nothing else. *)
Lemma update_rule_Q (cls : learner_class) l (s : State) (a : option Action)
    (r : option R) (cs : State) (ca : option Action) l' :
  update_rule cls l s a r cs ca = Ok l' →
  exploration_function l' = exploration_function l ∧
  is_Some (recorded (Q l') (Some s) a) ∧
  ∀ s' a', ¬ (s' = Some s ∧ a' = a) →
    recorded (Q l') s' a' = recorded (Q l) s' a' ∨
    (recorded (Q l) s' a' = None ∧ recorded (Q l') s' a' = Some 0).
Proof.
  destruct cls; simpl; [done| |].
  - unfold TD_QLearner_update_rule, update_rule_lr, learning_rate.
    rewrite (table_row_eq (counter l)). simpl.
    destruct (temperature_function l _) as [t|]; simpl; [|done].
    destruct (Q_getitem (Q l) (Some s) a) as [old q1] eqn:Hq1.
    destruct (table_row q1 (Some cs)) as [row_cs q2] eqn:Hq2.
    destruct (py_max _) as [m|]; simpl; [|done].
    destruct r as [r|]; simpl; [|done].
    destruct (Q_getitem q2 (Some s) a) as [cur q3] eqn:Hq3.
    intros [= <-]. simpl. split; [done|]. split.
    { rewrite recorded_Q_setitem, decide_True by done. eauto. }
    intros s' a' Hne.
    rewrite recorded_Q_setitem, decide_False by (intros [<- <-]; by apply Hne).
    assert (Hreads : reads_to (Q l) q3); [|apply Hreads].
    eapply reads_to_trans; [|eapply reads_to_trans].
    + apply (reads_to_Q_getitem _ (Some s) a).
    + rewrite Hq1. simpl. apply (reads_to_table_row _ (Some cs)).
    + rewrite Hq2. simpl. pose proof (reads_to_Q_getitem q2 (Some s) a) as Hr.
      by rewrite Hq3 in Hr.
  - unfold SARSA_Learner_update_rule, update_rule_lr, learning_rate.
    rewrite (table_row_eq (counter l)). simpl.
    destruct (temperature_function l _) as [t|]; simpl; [|done].
    destruct (Q_getitem (Q l) (Some s) a) as [old q1] eqn:Hq1.
    destruct (Q_getitem q1 (Some cs) ca) as [next q2] eqn:Hq2.
    destruct r as [r|]; simpl; [|done].
    destruct (Q_getitem q2 (Some s) a) as [cur q3] eqn:Hq3.
    intros [= <-]. simpl. split; [done|]. split.
    { rewrite recorded_Q_setitem, decide_True by done. eauto. }
    intros s' a' Hne.
    rewrite recorded_Q_setitem, decide_False by (intros [<- <-]; by apply Hne).
    assert (Hreads : reads_to (Q l) q3); [|apply Hreads].
    eapply reads_to_trans; [|eapply reads_to_trans].
    + apply (reads_to_Q_getitem _ (Some s) a).
    + rewrite Hq1. simpl. pose proof (reads_to_Q_getitem q1 (Some cs) ca) as Hr.
      rewrite Hq2 in Hr. exact Hr.
    + pose proof (reads_to_Q_getitem q2 (Some s) a) as Hr.
      by rewrite Hq3 in Hr.
Qed.

(** What a returning [step] does to the table, entry by entry. *)
Lemma step_Q (cls : learner_class) l (percept : Percept) (rnd : rand) ca l' :
  provided_exploration (exploration_function l) →
  step update_state actions cls l percept rnd = Ok (ca, l') →
  exploration_function l' = exploration_function l ∧
  ∃ l1,
    select_action actions l (update_state percept) rnd = Ok (ca, l1) ∧
    ∀ s' a',
      (is_Some (recorded (Q l1) s' a') → is_Some (recorded (Q l') s' a')) ∧
      (¬ (s' = last_state l ∧ a' = last_action l) →
       recorded (Q l') s' a' = recorded (Q l1) s' a' ∨
       (recorded (Q l1) s' a' = None ∧ recorded (Q l') s' a' = Some 0)).
Proof.
  intros Hprov. unfold step, step_with.
  destruct (select_action _ _ _ _) as [[ca1 l1]|] eqn:Hsel; simpl; [|done].
  pose proof (select_action_frame _ _ _ _ _ _ Hsel) as (_ & _ & _ & _ & _ & _ & Hef).
  destruct (last_state l) as [s|] eqn:Hs.
  - destruct (update_rule cls _ s _ _ _ _) as [l2|] eqn:Hrule; simpl; [|done].
    intros [= <- <-]. simpl.
    apply update_rule_Q in Hrule as (Hef2 & Hsa & Hother). simpl in *.
    split; [congruence|]. exists l1. split; [done|].
    intros s' a'. destruct (decide (s' = Some s ∧ a' = last_action l)) as [[-> ->]|Hne].
    + split; [done|]. intros Hno. by destruct Hno.
    + split; [|intros _; by apply Hother].
      intros [v Hv]. destruct (Hother s' a' Hne) as [->|[? _]]; [eauto|congruence].
  - intros [= <- <-]. simpl. split; [done|]. exists l1. split; [done|].
    intros s' a'. split; [done|]. by left.
Qed.

Lemma step_keeps_recorded (cls : learner_class) l (percept : Percept) (rnd : rand)
    ca l' (s : option State) (a : option Action) :
  provided_exploration (exploration_function l) →
  step update_state actions cls l percept rnd = Ok (ca, l') →
  is_Some (recorded (Q l) s a) → is_Some (recorded (Q l') s a).
Proof.
  intros Hprov Hstep Hsome.
  destruct (step_Q _ _ _ _ _ _ Hprov Hstep) as (_ & l1 & Hsel & Hent).
  apply Hent. eapply reads_to_is_Some; [|done].
  by eapply select_action_reads.
Qed.

Lemma set_reward_keeps_recorded l (reward : R) (terminal : bool)
    (s : option State) (a : option Action) :
  is_Some (recorded (Q l) s a) →
  is_Some (recorded (Q (set_reward l reward terminal)) s a).
Proof.
  destruct terminal; [|done]. simpl. rewrite recorded_Q_setitem.
  case_decide; eauto.
Qed.

(** Entries are never removed along a run. *)
Lemma runs_keep_recorded (cls : learner_class) l l'
    (s : option State) (a : option Action) :
  provided_exploration (exploration_function l) →
  runs_to update_state actions cls l l' →
  is_Some (recorded (Q l) s a) → is_Some (recorded (Q l') s a).
Proof.
  intros Hprov Hruns. induction Hruns as [l|l p rnd ca l1 l2 Hstep _ IH|l r t l2 _ IH].
  - done.
  - intros Hsome. apply IH.
    + destruct (step_Q _ _ _ _ _ _ Hprov Hstep) as (-> & _). done.
    + by eapply step_keeps_recorded.
  - intros Hsome. apply IH.
    + by destruct t.
    + by apply set_reward_keeps_recorded.
Qed.

Lemma recorded_utilities_nonempty q (s : option State) (a : option Action) :
  is_Some (recorded q s a) → recorded_utilities q s ≠ [].
Proof.
  intros [v Hv] Hnil.
  assert (Hin : v ∈ recorded_utilities q s).
  { unfold recorded_utilities. apply elem_of_dict_values. exists a.
    by rewrite <- recorded_row. }
  rewrite Hnil in Hin. by apply elem_of_nil in Hin.
Qed.

(** C10: after a step at a state with legal actions, under either provided
    strategy, [Q[state]] records an entry for every legal action, holding
    the utility the action stood for before ([0.0] when it had none) unless
    it is the pair the step updated; no later step or reward removes it, so
    the state never again presents an empty utility mapping. *)
Theorem step_records_every_action (cls : learner_class) l (percept : Percept)
    (rnd : rand) ca l1 (x : Action) :
  provided_exploration (exploration_function l) →
  x ∈ actions (update_state percept) →
  step update_state actions cls l percept rnd = Ok (ca, l1) →
  (∃ v, recorded (Q l1) (Some (update_state percept)) (Some x) = Some v ∧
        (¬ (last_state l = Some (update_state percept) ∧ last_action l = Some x) →
         v = Q_value (Q l) (Some (update_state percept)) (Some x))) ∧
  ∀ l2, runs_to update_state actions cls l1 l2 →
        is_Some (recorded (Q l2) (Some (update_state percept)) (Some x)) ∧
        recorded_utilities (Q l2) (Some (update_state percept)) ≠ [].
Proof.
  intros Hprov Hx Hstep.
  set (state := update_state percept) in *.
  destruct (step_Q _ _ _ _ _ _ Hprov Hstep) as (Hef & l0 & Hsel & Hent).
  assert (Hne : actions state ≠ []) by (intros Hnil; rewrite Hnil in Hx; by apply elem_of_nil in Hx).
  pose proof (select_action_provided _ _ _ _ _ Hprov Hne Hsel) as HQ0.
  assert (Hrec0 : recorded (Q l0) (Some state) (Some x)
                  = Some (Q_value (Q l) (Some state) (Some x))).
  { rewrite HQ0, recorded_insert_row, decide_True by done.
    rewrite read_utilities_records by done.
    unfold utility_of, Q_value. by rewrite table_row_fst, <- recorded_row. }
  destruct (Hent (Some state) (Some x)) as [Hsome Hval].
  assert (Hrec1 : is_Some (recorded (Q l1) (Some state) (Some x))).
  { apply Hsome. rewrite Hrec0. eauto. }
  split.
  - destruct Hrec1 as [v Hv]. exists v. split; [done|]. intros Hpair.
    destruct Hval as [Heq|[Hnone _]].
    + intros [Hs Ha]. apply Hpair. by split.
    + rewrite Hv, Hrec0 in Heq. by injection Heq.
    + congruence.
  - intros l2 Hruns.
    assert (is_Some (recorded (Q l2) (Some state) (Some x))) as Hrec2.
    { eapply runs_keep_recorded; [|exact Hruns|exact Hrec1]. by rewrite Hef. }
    split; [done|]. by eapply recorded_utilities_nonempty.
Qed.

End StepFacts.

(** ** Steps at a state without legal actions *)

Section ActionlessStates.
Context {Percept State Action : Type} `{Countable State, Countable Action}.
Variable update_state : Percept → State.
Variable actions : State → list Action.
Implicit Types (l : @QLearner State Action _ _ _ _).

(** With no legal action [step] calls no exploration function and selects
    [None]; what is left is the update of the pending pair, if any. *)
Lemma step_with_no_actions (rule : update_rule_t) l (percept : Percept) (rnd : rand) :
  actions (update_state percept) = [] →
  step_with update_state actions rule l percept rnd =
    match last_state l with
    | Some s =>
        l2 ← rule (set_counter
                     (counter_increment (counter l) (Some s) (last_action l)) l)
                  s (last_action l) (last_reward l) (update_state percept) None;
        Ok (None, set_last (Some (update_state percept)) None l2)
    | None => Ok (None, set_last (Some (update_state percept)) None l)
    end.
Proof.
  intros Hnil. unfold step_with. rewrite select_action_empty by done. simpl.
  by destruct (last_state l).
Qed.

Lemma counter_value_increment (c : ctable_t State Action)
    (s : option State) (a : option Action) :
  counter_value (counter_increment c s a) s a = (counter_value c s a + 1)%Z.
Proof.
  unfold counter_value at 1. by rewrite recorded_counter_increment, decide_True.
Qed.

(** The on-policy learner takes the step: it returns [None] and records
    [None] as [last_action]. *)
Lemma step_SARSA_no_actions l (percept : Percept) (rnd : rand)
    (s : State) (r t : R) :
  actions (update_state percept) = [] →
  last_state l = Some s → last_reward l = Some r →
  temperature_function l
    (counter_value (counter l) (Some s) (last_action l) + 1)%Z = Ok t →
  ∃ l', step update_state actions SARSA_Learner l percept rnd = Ok (None, l') ∧
        last_state l' = Some (update_state percept) ∧ last_action l' = None.
Proof.
  intros Hnil Hs Hr Ht. unfold step. rewrite step_with_no_actions by done.
  rewrite Hs, Hr.
  destruct (SARSA_update_rule_run
              (set_counter (counter_increment (counter l) (Some s) (last_action l)) l)
              s (last_action l) r (update_state percept) None t)
    as (l' & Hrun & _).
  { simpl. by rewrite counter_value_increment. }
  simpl. rewrite Hrun. simpl. eauto.
Qed.

(** The off-policy learner does not, when nothing is recorded for the new
    state: its update takes [max] of an empty [Q[state].values()]. *)
Lemma step_TD_no_actions_raises l (percept : Percept) (rnd : rand)
    (s : State) (t : R) :
  actions (update_state percept) = [] →
  last_state l = Some s → update_state percept ≠ s →
  recorded_utilities (Q l) (Some (update_state percept)) = [] →
  temperature_function l
    (counter_value (counter l) (Some s) (last_action l) + 1)%Z = Ok t →
  step update_state actions TD_QLearner l percept rnd = Raise ValueError.
Proof.
  intros Hnil Hs Hne Hempty Ht. unfold step. rewrite step_with_no_actions by done.
  rewrite Hs. simpl.
  rewrite (TD_update_rule_unvisited_successor _ _ _ _ _ _ t); [done| |done|done].
  simpl. by rewrite counter_value_increment.
Qed.

End ActionlessStates.

(** ** The example problem *)

(** The first step of a fresh learner at state [0] returns an action and
    leaves a table with a row for state [0] only. *)
Lemma example_first_step (cls : learner_class) (discount_factor : R) (rnd : rand) :
  ∃ x l1,
    step example_update_state example_actions cls (example_learner None discount_factor) 0%nat rnd
      = Ok (Some x, l1) ∧
    last_state l1 = Some 0%nat ∧ last_action l1 = Some x ∧
    temperature_function l1 = constant_temperature 1 ∧
    recorded_utilities (Q l1) (Some 1%nat) = [].
Proof.
  destruct (at_least_n_times_returns 1 1 [0%nat; 1%nat] (∅ : utilities_t nat) 1
              (∅ : action_counter_t nat) rnd) as (x & Hrun & _); [done|].
  exists x. eexists. split.
  - unfold step, step_with, select_action, example_update_state. simpl.
    rewrite !table_row_eq, !lookup_empty. simpl.
    rewrite Hrun. simpl. reflexivity.
  - simpl. split; [done|]. split; [done|]. split; [done|].
    unfold recorded_utilities.
    rewrite !lookup_insert_ne by done. rewrite lookup_empty.
    apply dict_values_empty.
Qed.

(** C1, on the code: with [Q[s][a] = 0], nothing recorded for the
    successor, [r = 1], [discount_factor = 0.9] and a learning rate of [1],
    [TD_QLearner.update_rule] raises [ValueError] instead of setting
    [Q[s][a]] to [1.0]. *)
Theorem TD_update_rule_raises_on_unvisited_successor :
  TD_QLearner_update_rule (example_learner None 0.9)
    0%nat (Some 0%nat) (Some 1) 1%nat None = Raise ValueError.
Proof.
  apply (TD_update_rule_unvisited_successor _ _ _ _ _ _ 1); [done|done|].
  unfold recorded_utilities. simpl. rewrite lookup_empty. apply dict_values_empty.
Qed.

(** C8, on the code: a fresh [TD_QLearner] steps at state [0], is given a
    reward, and steps at state [1], which has no legal action: the second
    step raises [ValueError] instead of returning [None]. *)
Theorem TD_step_raises_at_actionless_state :
  ∃ ca l1,
    step example_update_state example_actions TD_QLearner (example_learner None 0.9) 0%nat
      {| rand_choice := 0; rand_random := 0 |} = Ok (ca, l1) ∧
    example_actions 1%nat = [] ∧
    step example_update_state example_actions TD_QLearner (set_reward l1 1 false) 1%nat
      {| rand_choice := 0; rand_random := 0 |} = Raise ValueError.
Proof.
  destruct (example_first_step TD_QLearner 0.9 {| rand_choice := 0; rand_random := 0 |})
    as (x & l1 & Hstep & Hs & Ha & Ht & Hempty).
  exists (Some x), l1. split; [done|]. split; [done|].
  apply (step_TD_no_actions_raises example_update_state example_actions _ _ _ 0%nat 1);
    [done|done|done|done|].
  simpl. by rewrite Ht.
Qed.

(** The same run with a [SARSA_Learner] returns [None]. *)
Lemma SARSA_step_returns_at_actionless_state :
  ∃ ca l1 l2,
    step example_update_state example_actions SARSA_Learner (example_learner None 0.9) 0%nat
      {| rand_choice := 0; rand_random := 0 |} = Ok (ca, l1) ∧
    step example_update_state example_actions SARSA_Learner (set_reward l1 1 false) 1%nat
      {| rand_choice := 0; rand_random := 0 |} = Ok (None, l2) ∧
    last_action l2 = None.
Proof.
  destruct (example_first_step SARSA_Learner 0.9 {| rand_choice := 0; rand_random := 0 |})
    as (x & l1 & Hstep & Hs & Ha & Ht & Hempty).
  destruct (step_SARSA_no_actions example_update_state example_actions (set_reward l1 1 false) 1%nat
              {| rand_choice := 0; rand_random := 0 |} 0%nat 1 1)
    as (l2 & Hstep2 & _ & Ha2); [done|done|done|simpl; by rewrite Ht|].
  by exists (Some x), l1, l2.
Qed.

Lemma SARSA_update_rule_spec_witness :
  ∃ l',
    SARSA_Learner_update_rule
      (example_learner (Some {[Some 1%nat := {[Some 0%nat := 2]}]}) 0.5)
      0%nat (Some 0%nat) (Some 1) 1%nat (Some 0%nat) = Ok l' ∧
    recorded (Q l') (Some 0%nat) (Some 0%nat) = Some 2.
Proof.
  destruct (SARSA_update_rule_spec
              (example_learner (Some {[Some 1%nat := {[Some 0%nat := 2]}]}) 0.5)
              0%nat (Some 0%nat) 1 1%nat (Some 0%nat) 1 eq_refl)
    as (l' & lr & _ & -> & _ & Hrun & HQ).
  exists l'. split; [exact Hrun|]. rewrite HQ. f_equal.
  assert (H0 : Q_value (Q (example_learner (Some {[Some 1%nat := {[Some 0%nat := 2]}]}) 0.5))
                 (Some 0%nat) (Some 0%nat) = 0) by reflexivity.
  assert (H1 : Q_value (Q (example_learner (Some {[Some 1%nat := {[Some 0%nat := 2]}]}) 0.5))
                 (Some 1%nat) (Some 0%nat) = 2) by reflexivity.
  rewrite H0, H1. simpl. unfold py_min2. case_decide; lra.
Defined.

Lemma step_records_every_action_witness :
  ∃ ca l1,
    step example_update_state example_actions SARSA_Learner (example_learner None 0.9) 0%nat
      {| rand_choice := 0; rand_random := 0 |} = Ok (ca, l1) ∧
    (∃ v, recorded (Q l1) (Some 0%nat) (Some 1%nat) = Some v ∧
          (¬ (last_state (example_learner None 0.9) = Some 0%nat ∧
              last_action (example_learner None 0.9) = Some 1%nat) →
           v = Q_value (Q (example_learner None 0.9)) (Some 0%nat) (Some 1%nat))) ∧
    ∀ l2, runs_to example_update_state example_actions SARSA_Learner l1 l2 →
          is_Some (recorded (Q l2) (Some 0%nat) (Some 1%nat)) ∧
          recorded_utilities (Q l2) (Some 0%nat) ≠ [].
Proof.
  destruct (example_first_step SARSA_Learner 0.9 {| rand_choice := 0; rand_random := 0 |})
    as (x & l1 & Hstep & _).
  exists (Some x), l1. split; [exact Hstep|].
  apply (step_records_every_action example_update_state example_actions SARSA_Learner
           (example_learner None 0.9) 0%nat
           {| rand_choice := 0; rand_random := 0 |} (Some x) l1 1%nat).
  - left. by exists 1, 1%Z.
  - simpl. right. left.
  - exact Hstep.
Defined.

(** * Further properties of the code *)

(** ** Temperature schedule *)



(** ** Exploration strategies *)

Lemma list_getitem_Ok_inv {A} (l : list A) (i : nat) (x : A) :
  list_getitem l i = Ok x → l !! i = Some x.
Proof. unfold list_getitem. destruct (l !! i); [by intros [= ->]|done]. Qed.

Lemma argmax_from_member {A} (function : A → result R) (l : list A)
    (best : A) (best_value : R) (a : A) :
  argmax_from best best_value l function = Ok a → a = best ∨ a ∈ l.
Proof.
  revert best best_value. induction l as [|y l IH]; intros best best_value; simpl.
  - intros [= ->]. by left.
  - destruct (function y) as [v|]; simpl; [|done].
    case_decide; intros [->|Hin]%IH.
    + right. left.
    + right. by right.
    + by left.
    + right. by right.
Qed.

Lemma argmax_member {A} (function : A → result R) (l : list A) (a : A) :
  argmax l function = Ok a → a ∈ l.
Proof.
  destruct l as [|y l]; [done|]. simpl.
  destruct (function y) as [v|]; simpl; [|done].
  intros [->|Hin]%argmax_from_member; [left|by right].
Qed.

Section StrategyFacts.
Context {Action : Type} `{Countable Action}.
Implicit Types (utilities : utilities_t Action) (actions : list Action).

(** The run of the optimistic strategy, for use below. *)
Lemma at_least_n_times_run (optimistic_reward : R) (min_n : Z)
    actions utilities (temperature : R) (action_counter : action_counter_t Action)
    (rnd : rand) :
  actions ≠ [] →
  ∃ x before after,
    make_at_least_n_times optimistic_reward min_n actions utilities temperature
      action_counter rnd = Ok (x, (read_utilities actions utilities).2) ∧
    actions = before ++ x :: after ∧
    (∀ y, y ∈ before →
       effective_utility optimistic_reward min_n utilities action_counter y <
       effective_utility optimistic_reward min_n utilities action_counter x) ∧
    (∀ y, y ∈ after →
       effective_utility optimistic_reward min_n utilities action_counter y <=
       effective_utility optimistic_reward min_n utilities action_counter x).
Proof.
  intros Hne. unfold make_at_least_n_times.
  rewrite read_utilities_eq, override_rarely_tried_effective.
  destruct (argmax_first_maximum
              (effective_utility optimistic_reward min_n utilities action_counter)
              (λ action,
                 dict_getitem
                   (dict_of_pairs
                      (zip actions
                         (effective_utility optimistic_reward min_n utilities
                            action_counter <$> actions))) action)
              actions Hne)
    as (x & before & after & Hrun & Hsplit & Hb & Ha).
  { intros y Hy. unfold dict_getitem. by rewrite dict_of_pairs_lookup. }
  exists x, before, after. by rewrite Hrun.
Qed.

(** X5: Forced exploration: when some action has been tried fewer than
    [min_n] times and the optimistic reward exceeds the table utility of
    every action tried at least [min_n] times, the optimistic strategy
    returns an action tried fewer than [min_n] times. *)
Theorem at_least_n_times_explores_untried (optimistic_reward : R) (min_n : Z)
    actions utilities (temperature : R) (action_counter : action_counter_t Action)
    (rnd : rand) (x0 : Action) :
  x0 ∈ actions →
  (counter_getitem action_counter (Some x0) < min_n)%Z →
  (∀ y, y ∈ actions → (min_n ≤ counter_getitem action_counter (Some y))%Z →
        utility_of utilities y < optimistic_reward) →
  ∃ x utilities',
    make_at_least_n_times optimistic_reward min_n actions utilities temperature
      action_counter rnd = Ok (x, utilities') ∧
    x ∈ actions ∧ (counter_getitem action_counter (Some x) < min_n)%Z.
Proof.
  intros Hx0 Hfew Hopt.
  assert (Hne : actions ≠ []) by (intros ->; by apply elem_of_nil in Hx0).
  destruct (at_least_n_times_run optimistic_reward min_n actions utilities
              temperature action_counter rnd Hne)
    as (x & before & after & Hrun & Hsplit & Hb & Ha).
  assert (Hx : x ∈ actions) by (rewrite Hsplit; apply elem_of_app; right; left).
  exists x, (read_utilities actions utilities).2. split; [done|]. split; [done|].
  destruct (decide (counter_getitem action_counter (Some x) < min_n)%Z)
    as [|Hmany]; [done|exfalso].
  assert (Hex : effective_utility optimistic_reward min_n utilities action_counter x
                < optimistic_reward).
  { unfold effective_utility. rewrite bool_decide_eq_false_2 by done.
    apply Hopt; [done|lia]. }
  assert (Hex0 : effective_utility optimistic_reward min_n utilities action_counter x0
                 = optimistic_reward).
  { unfold effective_utility. by rewrite bool_decide_eq_true_2. }
  rewrite Hsplit in Hx0.
  apply elem_of_app in Hx0 as [Hin|[->|Hin]%elem_of_cons].
  - specialize (Hb x0 Hin). lra.
  - lia.
  - specialize (Ha x0 Hin). lra.
Qed.

(** X6: Greedy selection: when every action has been tried at least [min_n]
    times, the optimistic strategy returns an action of maximum table
    utility. *)
Theorem at_least_n_times_greedy_when_tried (optimistic_reward : R) (min_n : Z)
    actions utilities (temperature : R) (action_counter : action_counter_t Action)
    (rnd : rand) :
  actions ≠ [] →
  (∀ y, y ∈ actions → (min_n ≤ counter_getitem action_counter (Some y))%Z) →
  ∃ x utilities',
    make_at_least_n_times optimistic_reward min_n actions utilities temperature
      action_counter rnd = Ok (x, utilities') ∧
    x ∈ actions ∧
    (∀ y, y ∈ actions → utility_of utilities y <= utility_of utilities x).
Proof.
  intros Hne Htried.
  destruct (at_least_n_times_run optimistic_reward min_n actions utilities
              temperature action_counter rnd Hne)
    as (x & before & after & Hrun & Hsplit & Hb & Ha).
  assert (Heff : ∀ y, y ∈ actions →
            effective_utility optimistic_reward min_n utilities action_counter y
            = utility_of utilities y).
  { intros y Hy. unfold effective_utility.
    rewrite bool_decide_eq_false_2; [done|]. specialize (Htried y Hy). lia. }
  assert (Hx : x ∈ actions) by (rewrite Hsplit; apply elem_of_app; right; left).
  exists x, (read_utilities actions utilities).2.
  split; [done|]. split; [done|].
  intros y Hy. rewrite <- (Heff y Hy), <- (Heff x Hx).
  rewrite Hsplit in Hy.
  apply elem_of_app in Hy as [Hin|[->|Hin]%elem_of_cons].
  - left. by apply Hb.
  - lra.
  - by apply Ha.
Qed.

Lemma provided_exploration_member (f : exploration_t Action) actions utilities
    (temperature : R) (action_counter : action_counter_t Action) (rnd : rand)
    (x : Action) utilities' :
  provided_exploration f →
  f actions utilities temperature action_counter rnd = Ok (x, utilities') →
  x ∈ actions.
Proof.
  intros [(o & m & ->)| ->].
  - unfold make_at_least_n_times. rewrite read_utilities_eq.
    destruct (argmax _ _) as [a|] eqn:Harg; simpl; [|done].
    intros [= <- _]. by apply argmax_member in Harg.
  - unfold boltzmann_exploration. rewrite read_utilities_eq.
    destruct (py_max _); simpl; [|done].
    destruct (py_min _); simpl; [|done].
    case_bool_decide.
    + destruct (random_choice rnd actions) as [y|] eqn:Hget; simpl; [|done].
      intros [= <- _]. unfold random_choice in Hget.
      destruct actions as [|y0 actions']; [done|].
      apply list_getitem_Ok_inv in Hget. by eapply list_elem_of_lookup_2.
    + destruct (mapM _ _) as [ws|]; simpl; [|done].
      destruct (mapM _ ws); simpl; [|done].
      destruct (list_getitem _ 0%nat); simpl; [|done].
      destruct (boltzmann_loop _ _ _ _ _); simpl; [|done].
      destruct (list_getitem actions _) as [y|] eqn:Hget; simpl; [|done].
      intros [= <- _]. apply list_getitem_Ok_inv in Hget.
      by eapply list_elem_of_lookup_2.
Qed.

(** X7: What a call of a provided strategy leaves behind: the action it
    returns is one of the candidates, and the row it was given has gained
    an entry [0] for every candidate that had none; no recorded utility is
    changed and no other key is added. *)
Theorem provided_exploration_effect (f : exploration_t Action) actions utilities
    (temperature : R) (action_counter : action_counter_t Action) (rnd : rand)
    (x : Action) utilities' :
  provided_exploration f →
  f actions utilities temperature action_counter rnd = Ok (x, utilities') →
  x ∈ actions ∧
  ∀ k : option Action,
    utilities' !! k =
      match utilities !! k with
      | Some v => Some v
      | None => if decide (k ∈ Some <$> actions) then Some 0 else None
      end.
Proof.
  intros Hprov Hrun. split.
  - by eapply provided_exploration_member.
  - intros k. apply provided_exploration_row in Hrun; [|done]. subst utilities'.
    apply read_utilities_snd.
Qed.

End StrategyFacts.

Lemma at_least_n_times_explores_untried_witness :
  ∃ x utilities',
    make_at_least_n_times 1 1 [0%nat; 1%nat]
      ({[Some 0%nat := 0.5]} : utilities_t nat) 1
      ({[Some 0%nat := 3%Z]} : action_counter_t nat)
      {| rand_choice := 0; rand_random := 0 |} = Ok (x, utilities') ∧
    x ∈ [0%nat; 1%nat] ∧
    (counter_getitem ({[Some 0%nat := 3%Z]} : action_counter_t nat) (Some x) < 1)%Z.
Proof.
  apply (at_least_n_times_explores_untried 1 1 [0%nat; 1%nat]
           {[Some 0%nat := 0.5]} 1 {[Some 0%nat := 3%Z]}
           {| rand_choice := 0; rand_random := 0 |} 1%nat).
  - right. left.
  - by vm_compute.
  - intros y [->|[->|[]%elem_of_nil]%elem_of_cons]%elem_of_cons Hy.
    + unfold utility_of. rewrite lookup_singleton_eq. simpl. lra.
    + by vm_compute in Hy.
Defined.

Lemma at_least_n_times_greedy_when_tried_witness :
  ∃ x utilities',
    make_at_least_n_times 1 0 [0%nat; 1%nat] (∅ : utilities_t nat) 1
      (∅ : action_counter_t nat) {| rand_choice := 0; rand_random := 0 |}
      = Ok (x, utilities') ∧
    x ∈ [0%nat; 1%nat] ∧
    (∀ y, y ∈ [0%nat; 1%nat] → utility_of (∅ : utilities_t nat) y
                                <= utility_of (∅ : utilities_t nat) x).
Proof.
  apply (at_least_n_times_greedy_when_tried 1 0 [0%nat; 1%nat]); [done|].
  intros y _. by vm_compute.
Defined.

Lemma provided_exploration_effect_witness :
  ∃ x utilities',
    make_at_least_n_times 1 1 [0%nat; 1%nat] (∅ : utilities_t nat) 1
      (∅ : action_counter_t nat) {| rand_choice := 0; rand_random := 0 |}
      = Ok (x, utilities') ∧
    x ∈ [0%nat; 1%nat] ∧
    ∀ k : option nat,
      utilities' !! k =
        match (∅ : utilities_t nat) !! k with
        | Some v => Some v
        | None => if decide (k ∈ Some <$> [0%nat; 1%nat]) then Some 0 else None
        end.
Proof.
  destruct (at_least_n_times_returns 1 1 [0%nat; 1%nat] (∅ : utilities_t nat) 1
              (∅ : action_counter_t nat) {| rand_choice := 0; rand_random := 0 |})
    as (x & Hrun & _); [done|].
  exists x, (read_utilities [0%nat; 1%nat] (∅ : utilities_t nat)).2.
  split; [exact Hrun|].
  apply (provided_exploration_effect (make_at_least_n_times 1 1) [0%nat; 1%nat] ∅ 1 ∅
           {| rand_choice := 0; rand_random := 0 |} x _); [|exact Hrun].
  left. by exists 1, 1%Z.
Defined.

(** ** The learner: updates, steps and runs *)

Section LearnerSteps.
Context {Percept State Action : Type} `{Countable State, Countable Action}.
Variable update_state : Percept → State.
Variable actions : State → list Action.
Implicit Types (l : @QLearner State Action _ _ _ _).

(** X9: Rewards are not accumulated between steps: a non-terminal reward is
    forgotten when the next reward arrives. *)
Theorem set_reward_last_wins l (r1 r2 : R) (terminal : bool) :
  set_reward (set_reward l r1 false) r2 terminal = set_reward l r2 terminal.
Proof. by destruct terminal. Qed.

Lemma counter_value_table_row (c : ctable_t State Action)
    (s s' : option State) (a' : option Action) :
  counter_value (table_row c s).2 s' a' = counter_value c s' a'.
Proof. unfold counter_value. by rewrite recorded_table_row. Qed.

(** A concrete update rule that returns has touched the table [Q] only. *)
Lemma update_rule_frame (cls : learner_class) l (s : State) (a : option Action)
    (r : option R) (cs : State) (ca : option Action) l' :
  update_rule cls l s a r cs ca = Ok l' →
  trials l' = trials l ∧ last_state l' = last_state l ∧
  last_action l' = last_action l ∧ last_reward l' = last_reward l ∧
  discount_factor l' = discount_factor l ∧
  temperature_function l' = temperature_function l ∧
  ∀ s' a', counter_value (counter l') s' a' = counter_value (counter l) s' a'.
Proof.
  destruct cls; simpl; [done| |].
  - unfold TD_QLearner_update_rule, update_rule_lr, learning_rate.
    destruct (table_row (counter l) (Some s)) as [row c1] eqn:Hrow.
    destruct (temperature_function _ _) as [t|]; simpl; [|done].
    destruct (Q_getitem _ _ _) as [old q1].
    destruct (table_row q1 _) as [row_cs q2].
    destruct (py_max _); simpl; [|done].
    destruct r; simpl; [|done].
    destruct (Q_getitem q2 _ _) as [cur q3].
    intros [= <-]. simpl. do 6 (split; [done|]).
    intros s' a'. pose proof (counter_value_table_row (counter l) (Some s) s' a') as Hc.
    by rewrite Hrow in Hc.
  - unfold SARSA_Learner_update_rule, update_rule_lr, learning_rate.
    destruct (table_row (counter l) (Some s)) as [row c1] eqn:Hrow.
    destruct (temperature_function _ _) as [t|]; simpl; [|done].
    destruct (Q_getitem _ _ _) as [old q1].
    destruct (Q_getitem q1 _ _) as [next q2].
    destruct r; simpl; [|done].
    destruct (Q_getitem q2 _ _) as [cur q3].
    intros [= <-]. simpl. do 6 (split; [done|]).
    intros s' a'. pose proof (counter_value_table_row (counter l) (Some s) s' a') as Hc.
    by rewrite Hrow in Hc.
Qed.

Lemma select_action_counter l (state : State) (rnd : rand) ca l1 :
  select_action actions l state rnd = Ok (ca, l1) →
  (ca = None ↔ actions state = []) ∧
  ∀ s' a', counter_value (counter l1) s' a' = counter_value (counter l) s' a'.
Proof.
  unfold select_action. case_bool_decide as Hlen.
  - destruct (table_row (Q l) (Some state)) as [row q1].
    destruct (temperature_function l (trials l)) as [t|]; simpl; [|done].
    destruct (table_row (counter l) (Some state)) as [crow c1] eqn:Hrow.
    destruct (exploration_function l _ _ _ _ _) as [[x row']|]; simpl; [|done].
    intros [= <- <-]. simpl. split.
    + split; [done|]. intros Hnil. rewrite Hnil in Hlen. simpl in Hlen. lia.
    + intros s' a'.
      pose proof (counter_value_table_row (counter l) (Some state) s' a') as Hc.
      by rewrite Hrow in Hc.
  - intros [= <- <-]. split; [|done]. split; [|done]. intros _.
    destruct (actions state); [done|]. simpl in Hlen. lia.
Qed.

(** X10: [step] counts one visit of the pending pair, and no other: every
    count is as before, except that of [(last_state, last_action)], which
    is one higher when there was a pending pair. *)
Theorem step_counts_visit (cls : learner_class) l (percept : Percept)
    (rnd : rand) ca l' (s' : option State) (a' : option Action) :
  step update_state actions cls l percept rnd = Ok (ca, l') →
  counter_value (counter l') s' a' =
    (counter_value (counter l) s' a' +
     if decide (is_Some (last_state l) ∧ s' = last_state l ∧ a' = last_action l)
     then 1 else 0)%Z.
Proof.
  unfold step, step_with.
  destruct (select_action _ _ _ _) as [[ca1 l1]|] eqn:Hsel; simpl; [|done].
  destruct (select_action_counter _ _ _ _ _ Hsel) as [_ Hc1].
  destruct (last_state l) as [s|] eqn:Hs.
  - destruct (update_rule cls _ s _ _ _ _) as [l2|] eqn:Hrule; simpl; [|done].
    intros [= <- <-]. simpl.
    apply update_rule_frame in Hrule as (_ & _ & _ & _ & _ & _ & Hc2).
    rewrite Hc2. simpl. unfold counter_value at 1.
    rewrite recorded_counter_increment.
    destruct (decide (Some s = s' ∧ last_action l = a')) as [[<- <-]|Hne].
    + rewrite decide_True by eauto. simpl. by rewrite Hc1.
    + rewrite decide_False by (intros (_ & -> & ->); by apply Hne).
      fold (counter_value (counter l1) s' a'). rewrite Hc1. lia.
  - intros [= <- <-]. cbn [counter set_last]. rewrite Hc1.
    rewrite decide_False by (intros ([? [=]] & _)). lia.
Qed.

(** X11: The session state after a [step] that returns: the new state and the
    returned action are recorded as the pending pair; [None] is returned
    exactly when the state has no legal action, and under a provided
    strategy a returned action is one of the legal ones; [trials],
    [last_reward] and the configuration are untouched. *)
Theorem step_bookkeeping (cls : learner_class) l (percept : Percept)
    (rnd : rand) ca l' :
  step update_state actions cls l percept rnd = Ok (ca, l') →
  last_state l' = Some (update_state percept) ∧ last_action l' = ca ∧
  (ca = None ↔ actions (update_state percept) = []) ∧
  (provided_exploration (exploration_function l) →
   ∀ x, ca = Some x → x ∈ actions (update_state percept)) ∧
  trials l' = trials l ∧ last_reward l' = last_reward l ∧
  discount_factor l' = discount_factor l ∧
  temperature_function l' = temperature_function l.
Proof.
  unfold step, step_with.
  destruct (select_action _ _ _ _) as [[ca1 l1]|] eqn:Hsel; simpl; [|done].
  destruct (select_action_counter _ _ _ _ _ Hsel) as [Hnone _].
  pose proof (select_action_frame _ _ _ _ _ _ Hsel)
    as (_ & _ & Hr & Ht & Hd & Htf & _).
  assert (Hmem : provided_exploration (exploration_function l) →
                 ∀ x, ca1 = Some x → x ∈ actions (update_state percept)).
  { intros Hprov x ->. revert Hsel. unfold select_action.
    case_bool_decide; [|done].
    destruct (table_row (Q l) _) as [row q1].
    destruct (temperature_function l (trials l)) as [t|]; simpl; [|done].
    destruct (table_row (counter l) _) as [crow c1].
    destruct (exploration_function l _ _ _ _ _) as [[y row']|] eqn:Hex; simpl; [|done].
    intros [= -> _]. by eapply provided_exploration_member. }
  destruct (last_state l) as [s|].
  - destruct (update_rule cls _ s _ _ _ _) as [l2|] eqn:Hrule; simpl; [|done].
    intros [= <- <-]. simpl.
    apply update_rule_frame in Hrule as (Ht2 & _ & _ & Hr2 & Hd2 & Htf2 & _).
    simpl in *. do 4 (split; [done|]).
    split; [congruence|]. split; [congruence|]. split; congruence.
  - intros [= <- <-]. simpl. done.
Qed.

(** X12: Without an update rule only the first step can be taken: on the base
    class a step with a pending pair never returns. *)
Theorem step_unimplemented_update_rule l (percept : Percept) (rnd : rand) :
  is_Some (last_state l) →
  step update_state actions QLearner_class l percept rnd =
    match select_action actions l (update_state percept) rnd with
    | Ok _ => Raise NotImplementedError
    | Raise e => Raise e
    end.
Proof.
  intros [s Hs]. unfold step, step_with. rewrite Hs.
  by destruct (select_action _ _ _ _) as [[ca l1]|].
Qed.

(** X13: A step with a pending pair for which no reward was ever set never
    returns, whatever the class: the update has no reward to add. *)
Theorem step_without_reward_raises (cls : learner_class) l (percept : Percept)
    (rnd : rand) :
  is_Some (last_state l) → last_reward l = None →
  ∃ e, step update_state actions cls l percept rnd = Raise e.
Proof.
  intros [s Hs] Hr. unfold step, step_with. rewrite Hs.
  destruct (select_action _ _ _ _) as [[ca l1]|] eqn:Hsel; simpl; [|eauto].
  pose proof (select_action_frame _ _ _ _ _ _ Hsel) as (_ & _ & Hr1 & _).
  rewrite Hr1, Hr.
  destruct cls; simpl; [eauto| |].
  - unfold TD_QLearner_update_rule.
    destruct (update_rule_lr _ _ _) as [[lr l2]|]; simpl; [|eauto].
    destruct (Q_getitem _ _ _) as [old q1].
    destruct (table_row q1 _) as [row_cs q2].
    destruct (py_max _); simpl; eauto.
  - unfold SARSA_Learner_update_rule.
    destruct (update_rule_lr _ _ _) as [[lr l2]|]; simpl; [|eauto].
    destruct (Q_getitem _ _ _) as [old q1].
    destruct (Q_getitem q1 _ _) as [next q2]. simpl. eauto.
Qed.

(** X15: The Q-learning update on a successor with recorded utilities (or on
    [cs = s]): [Q[s][a]] moves by the learning rate towards
    [r + discount_factor * M], where [M] is the largest of the utilities
    recorded for the successor and, when [cs = s], of the old utility
    [Q[s][a]] as well, which the update has read, and so recorded (with
    the default [0] when it was missing), before it takes the maximum. *)
Theorem TD_update_rule_on_recorded_successor l (s : State) (a : option Action)
    (r : R) (cs : State) (ca : option Action) (t : R) :
  temperature_function l (counter_value (counter l) (Some s) a) = Ok t →
  cs = s ∨ recorded_utilities (Q l) (Some cs) ≠ [] →
  ∃ l' M,
    TD_QLearner_update_rule l s a (Some r) cs ca = Ok l' ∧
    recorded (Q l') (Some s) a =
      Some (Q_value (Q l) (Some s) a +
            py_min2 1 t * (r + discount_factor l * M - Q_value (Q l) (Some s) a)) ∧
    ((∃ a', recorded (Q l) (Some cs) a' = Some M) ∨
     (cs = s ∧ M = Q_value (Q l) (Some s) a)) ∧
    (∀ a' v, recorded (Q l) (Some cs) a' = Some v → v <= M) ∧
    (cs = s → Q_value (Q l) (Some s) a <= M).
Proof. apply TD_update_rule_spec. Qed.

End LearnerSteps.

Lemma step_counts_visit_witness :
  ∃ ca l1 l2,
    step example_update_state example_actions SARSA_Learner
      (set_reward l1 1 false) 1%nat {| rand_choice := 0; rand_random := 0 |}
      = Ok (ca, l2) ∧
    counter_value (counter l2) (last_state l1) (last_action l1) =
      (counter_value (counter (set_reward l1 1 false)) (last_state l1) (last_action l1) +
       if decide (is_Some (last_state (set_reward l1 1 false)) ∧
                  last_state l1 = last_state (set_reward l1 1 false) ∧
                  last_action l1 = last_action (set_reward l1 1 false))
       then 1 else 0)%Z.
Proof.
  destruct SARSA_step_returns_at_actionless_state as (ca & l1 & l2 & _ & Hstep & _).
  exists None, l1, l2. split; [exact Hstep|].
  exact (step_counts_visit example_update_state example_actions SARSA_Learner
           (set_reward l1 1 false) 1%nat {| rand_choice := 0; rand_random := 0 |}
           None l2 (last_state l1) (last_action l1) Hstep).
Defined.

Lemma step_bookkeeping_witness :
  ∃ ca l',
    step example_update_state example_actions TD_QLearner (example_learner None 0.9)
      0%nat {| rand_choice := 0; rand_random := 0 |} = Ok (ca, l') ∧
    last_state l' = Some (example_update_state 0%nat) ∧ last_action l' = ca ∧
    (ca = None ↔ example_actions (example_update_state 0%nat) = []) ∧
    (provided_exploration (exploration_function (example_learner None 0.9)) →
     ∀ x, ca = Some x → x ∈ example_actions (example_update_state 0%nat)) ∧
    trials l' = trials (example_learner None 0.9) ∧
    last_reward l' = last_reward (example_learner None 0.9) ∧
    discount_factor l' = discount_factor (example_learner None 0.9) ∧
    temperature_function l' = temperature_function (example_learner None 0.9).
Proof.
  destruct (example_first_step TD_QLearner 0.9 {| rand_choice := 0; rand_random := 0 |})
    as (x & l1 & Hstep & _).
  exists (Some x), l1. split; [exact Hstep|].
  exact (step_bookkeeping example_update_state example_actions TD_QLearner
           (example_learner None 0.9) 0%nat {| rand_choice := 0; rand_random := 0 |}
           (Some x) l1 Hstep).
Defined.

Lemma step_unimplemented_update_rule_witness :
  step example_update_state example_actions QLearner_class
    (set_last (Some 0%nat) (Some 0%nat) (example_learner None 0.9)) 1%nat
    {| rand_choice := 0; rand_random := 0 |} =
  match select_action example_actions
          (set_last (Some 0%nat) (Some 0%nat) (example_learner None 0.9))
          (example_update_state 1%nat) {| rand_choice := 0; rand_random := 0 |} with
  | Ok _ => Raise NotImplementedError
  | Raise e => Raise e
  end.
Proof.
  apply (step_unimplemented_update_rule example_update_state example_actions).
  simpl. eauto.
Defined.

Lemma step_without_reward_raises_witness :
  ∃ e, step example_update_state example_actions SARSA_Learner
         (set_last (Some 0%nat) (Some 0%nat) (example_learner None 0.9)) 1%nat
         {| rand_choice := 0; rand_random := 0 |} = Raise e.
Proof.
  apply (step_without_reward_raises example_update_state example_actions);
    [simpl; eauto|done].
Defined.

Lemma TD_update_rule_on_recorded_successor_witness :
  ∃ l' M,
    TD_QLearner_update_rule (example_learner None 0.9)
      0%nat (Some 0%nat) (Some 1) 0%nat (Some 1%nat) = Ok l' ∧
    recorded (Q l') (Some 0%nat) (Some 0%nat) =
      Some (Q_value (Q (example_learner None 0.9)) (Some 0%nat) (Some 0%nat) +
            py_min2 1 1 *
            (1 + discount_factor (example_learner None 0.9) * M
             - Q_value (Q (example_learner None 0.9)) (Some 0%nat) (Some 0%nat))) ∧
    ((∃ a', recorded (Q (example_learner None 0.9)) (Some 0%nat) a' = Some M) ∨
     (0%nat = 0%nat ∧
      M = Q_value (Q (example_learner None 0.9)) (Some 0%nat) (Some 0%nat))) ∧
    (∀ a' v, recorded (Q (example_learner None 0.9)) (Some 0%nat) a' = Some v → v <= M) ∧
    (0%nat = 0%nat →
     Q_value (Q (example_learner None 0.9)) (Some 0%nat) (Some 0%nat) <= M).
Proof.
  apply (TD_update_rule_on_recorded_successor (example_learner None 0.9)
           0%nat (Some 0%nat) 1 0%nat (Some 1%nat) 1); [done|by left].
Defined.

(** ** When a step returns *)

Section StepReturns.
Context {Percept State Action : Type} `{Countable State, Countable Action}.
Variable update_state : Percept → State.
Variable actions : State → list Action.
Implicit Types (l : @QLearner State Action _ _ _ _).

(** Under the optimistic strategy the selection always returns. *)
Lemma select_action_at_least_n_times l (state : State) (rnd : rand)
    (optimistic_reward : R) (min_n : Z) :
  exploration_function l = make_at_least_n_times optimistic_reward min_n →
  (∀ n, ∃ t, temperature_function l n = Ok t) →
  ∃ ca l1, select_action actions l state rnd = Ok (ca, l1).
Proof.
  intros Hf Htemp. unfold select_action. case_bool_decide as Hlen; [|eauto].
  destruct (table_row (Q l) (Some state)) as [row q1].
  destruct (Htemp (trials l)) as [t ->]. simpl.
  destruct (table_row (counter l) (Some state)) as [crow c1].
  rewrite Hf.
  destruct (at_least_n_times_returns optimistic_reward min_n (actions state)
              row t crow rnd) as (x & -> & _); [|simpl; eauto].
  intros Hnil. rewrite Hnil in Hlen. simpl in Hlen. lia.
Qed.

(** X16: When the update of a step cannot fail.  Under a provided strategy
    and with a temperature function that returns, once the selection of
    the action has returned, the step returns: always on the first step of
    a learner; with a reward at hand, on every step of a [SARSA_Learner],
    and on every step of a [TD_QLearner] to a state that has a legal
    action. *)
Theorem step_returns (cls : learner_class) l (percept : Percept) (rnd : rand)
    ca l1 :
  provided_exploration (exploration_function l) →
  (∀ n, ∃ t, temperature_function l n = Ok t) →
  select_action actions l (update_state percept) rnd = Ok (ca, l1) →
  last_state l = None ∨
  (is_Some (last_reward l) ∧
   (cls = SARSA_Learner ∨
    (cls = TD_QLearner ∧ actions (update_state percept) ≠ []))) →
  ∃ l', step update_state actions cls l percept rnd = Ok (ca, l').
Proof.
  intros Hprov Htemp Hsel Hcase. unfold step, step_with.
  rewrite Hsel. simpl.
  pose proof (select_action_frame _ _ _ _ _ _ Hsel)
    as (_ & _ & Hrew & _ & _ & Htf & _).
  destruct (last_state l) as [s|] eqn:Hs; [|simpl; eauto].
  destruct Hcase as [?|[[r Hreward] Hcls]]; [done|].
  rewrite Hrew, Hreward.
  set (l2 := set_counter (counter_increment (counter l1) (Some s) (last_action l)) l1).
  destruct (Htemp (counter_value (counter l2) (Some s) (last_action l))) as [t Ht].
  assert (Ht2 : temperature_function l2
                  (counter_value (counter l2) (Some s) (last_action l)) = Ok t).
  { unfold l2. simpl. by rewrite Htf. }
  destruct Hcls as [->|[-> Hne]]; simpl.
  - destruct (SARSA_update_rule_run l2 s (last_action l) r (update_state percept)
                ca t Ht2) as (l3 & -> & _). simpl. eauto.
  - destruct (TD_update_rule_spec l2 s (last_action l) r (update_state percept)
                ca t Ht2) as (l3 & M & -> & _); [|simpl; eauto].
    right. destruct (actions (update_state percept)) as [|x acts] eqn:Hacts; [done|].
    apply (recorded_utilities_nonempty _ _ (Some x)).
    unfold l2. simpl.
    rewrite (select_action_provided actions l (update_state percept) rnd ca l1 Hprov)
      by (done || by rewrite Hacts).
    rewrite recorded_insert_row, decide_True by done.
    rewrite read_utilities_records by (rewrite Hacts; left). eauto.
Qed.

Lemma step_trials_counts (cls : learner_class) l (percept : Percept)
    (rnd : rand) ca l' (s' : option State) (a' : option Action) :
  step update_state actions cls l percept rnd = Ok (ca, l') →
  trials l' = trials l ∧
  (counter_value (counter l) s' a' ≤ counter_value (counter l') s' a')%Z.
Proof.
  unfold step, step_with.
  destruct (select_action _ _ _ _) as [[ca1 l1]|] eqn:Hsel; simpl; [|done].
  destruct (select_action_counter _ _ _ _ _ _ Hsel) as [_ Hc1].
  pose proof (select_action_frame _ _ _ _ _ _ Hsel) as (_ & _ & _ & Ht & _).
  destruct (last_state l) as [s|].
  - destruct (update_rule cls _ s _ _ _ _) as [l2|] eqn:Hrule; simpl; [|done].
    intros [= <- <-]. simpl.
    apply update_rule_frame in Hrule as (Ht2 & _ & _ & _ & _ & _ & Hc2).
    simpl in Ht2. split; [congruence|].
    rewrite Hc2. simpl. unfold counter_value at 2.
    rewrite recorded_counter_increment. case_decide as Heq.
    + destruct Heq as [<- <-]. simpl. rewrite Hc1. lia.
    + fold (counter_value (counter l1) s' a'). rewrite Hc1. lia.
  - intros [= <- <-]. cbn [counter trials set_last]. rewrite Hc1. split; [done|lia].
Qed.

(** X17: Along a run, the trial count and every visit count only grow. *)
Theorem runs_counts_grow (cls : learner_class) l l'
    (s : option State) (a : option Action) :
  runs_to update_state actions cls l l' →
  (trials l ≤ trials l')%Z ∧
  (counter_value (counter l) s a ≤ counter_value (counter l') s a)%Z.
Proof.
  intros Hruns. induction Hruns as [l|l p rnd ca l1 l2 Hstep _ IH|l r t l2 _ IH].
  - done.
  - pose proof (step_trials_counts cls l p rnd ca l1 s a Hstep) as [Ht Hc].
    lia.
  - destruct t; simpl in IH; lia.
Qed.

End StepReturns.

Lemma step_returns_witness :
  ∃ ca l',
    step example_update_state example_actions TD_QLearner
      (set_reward (set_last (Some 1%nat) None (example_learner None 0.9)) 1 false)
      0%nat {| rand_choice := 0; rand_random := 0 |} = Ok (ca, l').
Proof.
  destruct (select_action_at_least_n_times example_actions
              (set_reward (set_last (Some 1%nat) None (example_learner None 0.9)) 1 false)
              (example_update_state 0%nat) {| rand_choice := 0; rand_random := 0 |}
              1 1%Z) as (ca & l1 & Hsel).
  { done. }
  { intros n. by exists 1. }
  exists ca.
  apply (step_returns example_update_state example_actions TD_QLearner _ _ _ ca l1).
  - left. by exists 1, 1%Z.
  - intros n. by exists 1.
  - exact Hsel.
  - right. split; [simpl; eauto|]. right. done.
Defined.

Lemma runs_counts_grow_witness :
  (trials (example_learner None 0.9)
   ≤ trials (set_reward (example_learner None 0.9) 1 true))%Z ∧
  (counter_value (counter (example_learner None 0.9)) (Some 0%nat) (Some 0%nat)
   ≤ counter_value (counter (set_reward (example_learner None 0.9) 1 true))
       (Some 0%nat) (Some 0%nat))%Z.
Proof.
  apply (runs_counts_grow example_update_state example_actions SARSA_Learner).
  apply (runs_set_reward _ _ _ _ 1 true). apply runs_refl.
Defined.

(** ** Monitoring *)

Section MonitoringFacts.
Context {Percept State Action : Type} `{Countable State, Countable Action}.
Variable update_state : Percept → State.
Variable actions : State → list Action.
Implicit Types (l : @QLearner State Action _ _ _ _).
Implicit Types (m : @monitored State Action _ _ _ _).

(** X18: The installed [set_reward] delegates: when it returns, the learner is
    exactly as the original [set_reward] leaves it, and a non-terminal
    call records nothing.  It raises only in a terminal call, and only
    what the temperature function raises. *)
Theorem monitored_set_reward_delegates m (reward : R) (terminal : bool) :
  match monitored_set_reward m reward terminal with
  | Ok m' =>
      learner m' = set_reward (learner m) reward terminal ∧ name m' = name m ∧
      (terminal = false →
       accumulated_rewards m' = accumulated_rewards m ∧
       known_states m' = known_states m ∧ temperatures m' = temperatures m)
  | Raise e =>
      terminal = true ∧
      temperature_function (learner m) (trials (learner m)) = Raise e
  end.
Proof.
  unfold monitored_set_reward. destruct terminal; simpl; [|done].
  by destruct (temperature_function (learner m) (trials (learner m))).
Qed.

(** What one terminal call of the installed [set_reward] appends. *)
Lemma monitored_set_reward_terminal m (reward : R) m' :
  monitored_set_reward m reward true = Ok m' →
  ∃ t,
    temperature_function (learner m) (trials (learner m)) = Ok t ∧
    learner m' = set_reward (learner m) reward true ∧
    accumulated_rewards m' =
      accumulated_rewards m ++ [default 0 (last (accumulated_rewards m)) + reward] ∧
    known_states m' = known_states m ++ [size (Q (learner m))] ∧
    temperatures m' = temperatures m ++ [t].
Proof.
  unfold monitored_set_reward. simpl.
  destruct (temperature_function (learner m) (trials (learner m))) as [t|];
    simpl; [|done].
  intros [= <-]. simpl. exists t. do 2 (split; [done|]). split; [|done].
  destruct (last (accumulated_rewards m)); simpl; [done|].
  by rewrite Rplus_0_l.
Qed.

Lemma monitored_set_reward_nonterminal m (reward : R) m' :
  monitored_set_reward m reward false = Ok m' →
  learner m' = set_reward (learner m) reward false ∧
  accumulated_rewards m' = accumulated_rewards m ∧
  known_states m' = known_states m ∧ temperatures m' = temperatures m.
Proof. unfold monitored_set_reward. simpl. by intros [= <-]. Qed.


(** X19: The three series have one entry per trial: along a monitored run each
    grows by the number of terminal rewards, and so does [trials], which
    is what the plots index them by. *)
Theorem monitored_run_series_lengths (cls : learner_class) m (rewards : list R) m' :
  monitored_run update_state actions cls m rewards m' →
  length (accumulated_rewards m') =
    (length (accumulated_rewards m) + length rewards)%nat ∧
  length (known_states m') = (length (known_states m) + length rewards)%nat ∧
  length (temperatures m') = (length (temperatures m) + length rewards)%nat ∧
  trials (learner m') = (trials (learner m) + Z.of_nat (length rewards))%Z.
Proof.
  intros Hrun.
  induction Hrun as [m|m p rnd ca l1 rewards m2 Hstep _ IH
                    |m reward terminal m1 rewards m2 Hset _ IH].
  - simpl. repeat split; lia.
  - simpl in IH.
    pose proof (step_trials_counts update_state actions cls (learner m) p rnd ca l1
                  None None Hstep) as [Ht _].
    rewrite Ht in IH. done.
  - destruct terminal.
    + apply monitored_set_reward_terminal in Hset as (t & _ & Hl & Hacc & Hk & Htemp).
      rewrite Hl, Hacc, Hk, Htemp in IH. rewrite !length_app in IH. simpl in *.
      destruct IH as (? & ? & ? & ?). repeat split; lia.
    + apply monitored_set_reward_nonterminal in Hset as (Hl & Hacc & Hk & Htemp).
      rewrite Hl, Hacc, Hk, Htemp in IH. done.
Qed.

(** X20: [accumulated_rewards] holds the running totals of the terminal
    rewards: along a monitored run it is extended by the totals of the
    rewards received, continuing from its last entry. *)
Theorem monitored_run_running_totals (cls : learner_class) m (rewards : list R) m' :
  monitored_run update_state actions cls m rewards m' →
  accumulated_rewards m' =
    accumulated_rewards m ++
    running_totals (default 0 (last (accumulated_rewards m))) rewards.
Proof.
  intros Hrun.
  induction Hrun as [m|m p rnd ca l1 rewards m2 Hstep _ IH
                    |m reward terminal m1 rewards m2 Hset _ IH].
  - simpl. by rewrite app_nil_r.
  - done.
  - destruct terminal.
    + apply monitored_set_reward_terminal in Hset as (t & _ & _ & Hacc & _).
      rewrite Hacc, last_snoc in IH. simpl in IH.
      rewrite IH, <- app_assoc. done.
    + apply monitored_set_reward_nonterminal in Hset as (_ & Hacc & _).
      by rewrite Hacc in IH.
Qed.


End MonitoringFacts.

(** *** The number of known states *)

Section KnownStates.
Context {Percept State Action : Type} `{Countable State, Countable Action}.
Variable update_state : Percept → State.
Variable actions : State → list Action.
Implicit Types (l : @QLearner State Action _ _ _ _).
Implicit Types (m : @monitored State Action _ _ _ _).
Implicit Types (q : qtable_t State Action).

Lemma size_insert_ge q (s : option State) (row : utilities_t Action) :
  (size q ≤ size (<[s := row]> q))%nat.
Proof.
  destruct (q !! s) eqn:Hs.
  - by rewrite map_size_insert_Some.
  - rewrite map_size_insert_None by done. lia.
Qed.

Lemma size_table_row q (s : option State) : (size q ≤ size (table_row q s).2)%nat.
Proof. rewrite table_row_snd. apply size_insert_ge. Qed.

Lemma size_Q_getitem q (s : option State) (a : option Action) :
  (size q ≤ size (Q_getitem q s a).2)%nat.
Proof.
  unfold Q_getitem. rewrite table_row_eq.
  destruct (defaultdict_getitem 0 _ a) as [v row']. simpl.
  etrans; [|apply size_insert_ge]. apply size_insert_ge.
Qed.

Lemma size_Q_setitem q (s : option State) (a : option Action) (v : R) :
  (size q ≤ size (Q_setitem q s a v))%nat.
Proof.
  unfold Q_setitem. rewrite table_row_eq.
  etrans; [|apply size_insert_ge]. apply size_insert_ge.
Qed.

Lemma size_set_reward l (reward : R) (terminal : bool) :
  (size (Q l) ≤ size (Q (set_reward l reward terminal)))%nat.
Proof. destruct terminal; [|done]. simpl. apply size_Q_setitem. Qed.

Lemma size_update_rule (cls : learner_class) l (s : State) (a : option Action)
    (r : option R) (cs : State) (ca : option Action) l' :
  update_rule cls l s a r cs ca = Ok l' → (size (Q l) ≤ size (Q l'))%nat.
Proof.
  destruct cls; simpl; [done| |].
  - unfold TD_QLearner_update_rule, update_rule_lr, learning_rate.
    destruct (table_row (counter l) (Some s)) as [row c1].
    destruct (temperature_function _ _) as [t|]; simpl; [|done].
    pose proof (size_Q_getitem (Q l) (Some s) a) as Hsz1.
    destruct (Q_getitem (Q l) _ _) as [old q1]. simpl in Hsz1.
    pose proof (size_table_row q1 (Some cs)) as Hsz2.
    destruct (table_row q1 _) as [row_cs q2]. simpl in Hsz2.
    destruct (py_max _); simpl; [|done].
    destruct r; simpl; [|done].
    pose proof (size_Q_getitem q2 (Some s) a) as Hsz3.
    destruct (Q_getitem q2 _ _) as [cur q3]. simpl in Hsz3.
    intros [= <-]. simpl.
    etrans; [|apply size_Q_setitem]. lia.
  - unfold SARSA_Learner_update_rule, update_rule_lr, learning_rate.
    destruct (table_row (counter l) (Some s)) as [row c1].
    destruct (temperature_function _ _) as [t|]; simpl; [|done].
    pose proof (size_Q_getitem (Q l) (Some s) a) as Hsz1.
    destruct (Q_getitem (Q l) _ _) as [old q1]. simpl in Hsz1.
    pose proof (size_Q_getitem q1 (Some cs) ca) as Hsz2.
    destruct (Q_getitem q1 _ _) as [next q2]. simpl in Hsz2.
    destruct r; simpl; [|done].
    pose proof (size_Q_getitem q2 (Some s) a) as Hsz3.
    destruct (Q_getitem q2 _ _) as [cur q3]. simpl in Hsz3.
    intros [= <-]. simpl.
    etrans; [|apply size_Q_setitem]. lia.
Qed.

(** No row of the table is ever dropped by a step, whatever the
    exploration function. *)
Lemma size_step (cls : learner_class) l (percept : Percept) (rnd : rand) ca l' :
  step update_state actions cls l percept rnd = Ok (ca, l') →
  (size (Q l) ≤ size (Q l'))%nat.
Proof.
  unfold step, step_with.
  assert (Hsel : ∀ ca1 l1,
            select_action actions l (update_state percept) rnd = Ok (ca1, l1) →
            (size (Q l) ≤ size (Q l1))%nat).
  { intros ca1 l1. unfold select_action. case_bool_decide; [|by intros [= _ <-]].
    pose proof (size_table_row (Q l) (Some (update_state percept))) as Hsz1.
    destruct (table_row (Q l) _) as [row q1]. simpl in Hsz1.
    destruct (temperature_function l (trials l)) as [t|]; simpl; [|done].
    destruct (table_row (counter l) _) as [crow c1].
    destruct (exploration_function l _ _ _ _ _) as [[x row']|]; simpl; [|done].
    intros [= _ <-]. simpl.
    pose proof (size_insert_ge q1 (Some (update_state percept)) row'). lia. }
  destruct (select_action _ _ _ _) as [[ca1 l1]|]; simpl; [|done].
  specialize (Hsel ca1 l1 eq_refl).
  destruct (last_state l) as [s|].
  - destruct (update_rule cls _ s _ _ _ _) as [l2|] eqn:Hrule; simpl; [|done].
    intros [= <- <-]. simpl. apply size_update_rule in Hrule. simpl in Hrule. lia.
  - by intros [= <- <-].
Qed.

(** X22: [known_states] never decreases: along a monitored run the appended
    entries are in non-decreasing order, between the numbers of rows of
    [Q] at the start and at the end of the run. *)
Theorem monitored_run_known_states (cls : learner_class) m (rewards : list R) m' :
  monitored_run update_state actions cls m rewards m' →
  ∃ ks,
    known_states m' = known_states m ++ ks ∧
    StronglySorted le ks ∧
    Forall (λ n, size (Q (learner m)) ≤ n ≤ size (Q (learner m')))%nat ks ∧
    (size (Q (learner m)) ≤ size (Q (learner m')))%nat.
Proof.
  intros Hrun.
  induction Hrun as [m|m p rnd ca l1 rewards m2 Hstep _ IH
                    |m reward terminal m1 rewards m2 Hset _ IH].
  - exists []. split; [by rewrite app_nil_r|]. split; [constructor|]. done.
  - destruct IH as (ks & Hks & Hsorted & Hall & Hle). simpl in *.
    apply size_step in Hstep.
    exists ks. split; [done|]. split; [done|]. split; [|lia].
    eapply Forall_impl; [exact Hall|]. intros n [? ?]. lia.
  - destruct IH as (ks & Hks & Hsorted & Hall & Hle). destruct terminal.
    + apply monitored_set_reward_terminal in Hset as (t0 & _ & Hl & _ & Hk & _).
      pose proof (size_set_reward (learner m) reward true) as Hgrow.
      rewrite Hl in Hall, Hle.
      exists (size (Q (learner m)) :: ks).
      split; [by rewrite Hks, Hk, <- app_assoc|]. split; [|split; [|lia]].
      * constructor; [done|]. eapply Forall_impl; [exact Hall|]. intros n [? ?]. lia.
      * constructor; [lia|]. eapply Forall_impl; [exact Hall|]. intros n [? ?]. lia.
    + apply monitored_set_reward_nonterminal in Hset as (Hl & _ & Hk & _).
      rewrite Hl in Hall, Hle. simpl in *.
      exists ks. by rewrite Hks, Hk.
Qed.

End KnownStates.

Lemma example_monitored_run (cls : learner_class) :
  ∃ m1,
    monitored_set_reward example_monitored 5 true = Ok m1 ∧
    monitored_run example_update_state example_actions cls example_monitored [5] m1.
Proof.
  assert (∃ m1, monitored_set_reward example_monitored 5 true = Ok m1)
    as [m1 Hset] by (eexists; reflexivity).
  exists m1. split; [exact Hset|].
  apply (monitored_run_reward _ _ _ example_monitored 5 true m1 [] m1 Hset).
  apply monitored_run_refl.
Qed.

Lemma monitored_run_series_lengths_witness :
  ∃ m1,
    monitored_set_reward example_monitored 5 true = Ok m1 ∧
    length (accumulated_rewards m1) =
      (length (accumulated_rewards example_monitored) + length [5])%nat ∧
    length (known_states m1) =
      (length (known_states example_monitored) + length [5])%nat ∧
    length (temperatures m1) =
      (length (temperatures example_monitored) + length [5])%nat ∧
    trials (learner m1) =
      (trials (learner example_monitored) + Z.of_nat (length [5]))%Z.
Proof.
  destruct (example_monitored_run SARSA_Learner) as (m1 & Hset & Hrun).
  exists m1. split; [exact Hset|].
  exact (monitored_run_series_lengths example_update_state example_actions
           SARSA_Learner example_monitored [5] m1 Hrun).
Defined.

Lemma monitored_run_running_totals_witness :
  ∃ m1,
    monitored_set_reward example_monitored 5 true = Ok m1 ∧
    accumulated_rewards m1 =
      accumulated_rewards example_monitored ++
      running_totals (default 0 (last (accumulated_rewards example_monitored))) [5].
Proof.
  destruct (example_monitored_run SARSA_Learner) as (m1 & Hset & Hrun).
  exists m1. split; [exact Hset|].
  exact (monitored_run_running_totals example_update_state example_actions
           SARSA_Learner example_monitored [5] m1 Hrun).
Defined.


Lemma monitored_run_known_states_witness :
  ∃ m1 ks,
    monitored_set_reward example_monitored 5 true = Ok m1 ∧
    known_states m1 = known_states example_monitored ++ ks ∧
    StronglySorted le ks ∧
    Forall (λ n, size (Q (learner example_monitored)) ≤ n
                 ≤ size (Q (learner m1)))%nat ks ∧
    (size (Q (learner example_monitored)) ≤ size (Q (learner m1)))%nat.
Proof.
  destruct (example_monitored_run SARSA_Learner) as (m1 & Hset & Hrun).
  destruct (monitored_run_known_states example_update_state example_actions
              SARSA_Learner example_monitored [5] m1 Hrun)
    as (ks & Hks & Hsorted & Hall & Hle).
  by exists m1, ks.
Defined.

(** *** [PerformanceCounter.__init__] *)

Section MonitoringInit.
Context {State Action : Type} `{Countable State, Countable Action}.
Implicit Types (l : @QLearner State Action _ _ _ _).
Implicit Types (m : @monitored State Action _ _ _ _).

Lemma PerformanceCounter_init_from_default (i : nat)
    (learners : list (@QLearner State Action _ _ _ _)) :
  PerformanceCounter_init_from i learners None =
    Ok (imap (λ k l, {| learner := l; accumulated_rewards := [];
                        known_states := []; temperatures := [];
                        name := "Learner " +:+ pretty (i + k)%nat |}) learners).
Proof.
  revert i. induction learners as [|l learners IH]; intros i; [done|].
  simpl. rewrite IH. simpl. f_equal. f_equal.
  - by rewrite Nat.add_0_r.
  - apply imap_ext. intros k l' _. simpl. do 3 f_equal. lia.
Qed.

(** X23: Without [names] the constructor never fails: it keeps the learners
    as they are, starts every series empty, and names the learner at
    position [k] ["Learner k"], so that no two learners share a name. *)
Theorem PerformanceCounter_init_default_names
    (learners : list (@QLearner State Action _ _ _ _)) :
  ∃ ms,
    PerformanceCounter_init learners None = Ok ms ∧
    learner <$> ms = learners ∧
    (∀ k m, ms !! k = Some m → name m = "Learner " +:+ pretty k) ∧
    NoDup (name <$> ms) ∧
    Forall (λ m, accumulated_rewards m = [] ∧ known_states m = [] ∧
                 temperatures m = []) ms.
Proof.
  unfold PerformanceCounter_init. rewrite PerformanceCounter_init_from_default.
  eexists. split; [done|].
  assert (Hlook : ∀ k m,
            imap (λ k l, {| learner := l; accumulated_rewards := [];
                            known_states := []; temperatures := [];
                            name := "Learner " +:+ pretty (0 + k)%nat |}) learners
              !! k = Some m →
            ∃ l, learners !! k = Some l ∧
                 m = {| learner := l; accumulated_rewards := [];
                        known_states := []; temperatures := [];
                        name := "Learner " +:+ pretty k |}).
  { intros k m. rewrite list_lookup_imap.
    destruct (learners !! k) as [l|]; simpl; [|done].
    intros [= <-]. eauto. }
  split; [|split; [|split]].
  - apply list_eq. intros k. rewrite list_lookup_fmap, list_lookup_imap.
    by destruct (learners !! k).
  - intros k m (l & _ & ->)%Hlook. done.
  - apply NoDup_alt. intros j k nm.
    rewrite !list_lookup_fmap.
    destruct (imap _ learners !! j) as [mj|] eqn:Hj; simpl; [|done].
    destruct (imap _ learners !! k) as [mk|] eqn:Hk; simpl; [|done].
    apply Hlook in Hj as (lj & _ & ->). apply Hlook in Hk as (lk & _ & ->).
    cbn [name fmap option_fmap option_map]. intros Hnj Hnk.
    assert (Heq : "Learner " +:+ pretty j = "Learner " +:+ pretty k) by congruence.
    apply (inj (String.app "Learner ")) in Heq. by apply (inj pretty) in Heq.
  - apply Forall_lookup. intros k m (l & _ & ->)%Hlook. done.
Qed.

Lemma PerformanceCounter_init_from_names (i : nat)
    (learners : list (@QLearner State Action _ _ _ _)) (names : list string) :
  PerformanceCounter_init_from i learners (Some names) =
    if decide (length learners ≤ length (drop i names))%nat
    then Ok (zip_with (λ l nm, {| learner := l; accumulated_rewards := [];
                                  known_states := []; temperatures := [];
                                  name := nm |}) learners (drop i names))
    else Raise IndexError.
Proof.
  revert i. induction learners as [|l learners IH]; intros i.
  - rewrite decide_True by (simpl; lia). done.
  - cbn [PerformanceCounter_init_from length]. unfold list_getitem. destruct (names !! i) as [nm|] eqn:Hnm; simpl.
    + rewrite IH. rewrite (drop_S names nm i Hnm). simpl.
      destruct (decide (length learners ≤ length (drop (S i) names))%nat).
      * rewrite decide_True by lia. done.
      * rewrite decide_False by lia. done.
    + rewrite drop_ge by (by apply lookup_ge_None). by simpl.
Qed.

(** X24: With [names], the constructor raises [IndexError] when there are
    fewer names than learners; otherwise the learner at position [k] is
    given [names[k]] and surplus names are ignored. *)
Theorem PerformanceCounter_init_names
    (learners : list (@QLearner State Action _ _ _ _)) (names : list string) :
  PerformanceCounter_init learners (Some names) =
    if decide (length learners ≤ length names)%nat
    then Ok (zip_with (λ l nm, {| learner := l; accumulated_rewards := [];
                                  known_states := []; temperatures := [];
                                  name := nm |}) learners names)
    else Raise IndexError.
Proof.
  unfold PerformanceCounter_init.
  by rewrite PerformanceCounter_init_from_names, drop_0.
Qed.

End MonitoringInit.

(** * The temperature schedule and the softmax strategy in floating point *)

#[local] Set Warnings "-inexact-float".

(** ** Temperature schedule *)

Section ScheduleCases.
Context {F : Type} `{Fp.Arith F}.

(** C4 (as amended): in every arithmetic, the schedule never raises
    [OverflowError].  It returns the floor [0.01] exactly when [float(n)]
    or [math.exp(n * alpha)] raises [OverflowError]; when [math.exp]
    returns [e] it returns [initial_temperature / e], unless [e] is zero,
    in which case the division raises [ZeroDivisionError], which is not
    caught.  Any other exception of the two calls is passed on. *)
Theorem exponential_temperature_cases (initial_temperature alpha : F) (n : Z) :
  Fp.make_exponential_temperature initial_temperature alpha n
    ≠ Raise OverflowError ∧
  Fp.make_exponential_temperature initial_temperature alpha n =
    match Fp.float_of_int n with
    | Raise OverflowError => Ok Fp.lit_0_01
    | Raise e => Raise e
    | Ok x =>
        match Fp.math_exp (Fp.mul x alpha) with
        | Raise OverflowError => Ok Fp.lit_0_01
        | Raise e => Raise e
        | Ok e =>
            if Fp.eqb e Fp.lit_0 then Raise ZeroDivisionError
            else Ok (Fp.truediv initial_temperature e)
        end
    end.
Proof.
  unfold Fp.make_exponential_temperature, try_except, mbind, result_bind.
  destruct (Fp.float_of_int n) as [x|[]]; try done.
  destruct (Fp.math_exp (Fp.mul x alpha)) as [e|[]]; try done.
  unfold Fp.py_div. by destruct (Fp.eqb e Fp.lit_0).
Qed.

End ScheduleCases.

(** In exact arithmetic the schedule is the one of the first part. *)
Lemma exact_make_exponential_temperature (initial_temperature alpha : R) (n : Z) :
  Fp.make_exponential_temperature initial_temperature alpha n
  = make_exponential_temperature initial_temperature alpha n.
Proof.
  unfold Fp.make_exponential_temperature, make_exponential_temperature.
  cbn. destruct (py_float n) as [x|]; [|done]. cbn.
  destruct (math_exp (x * alpha)) as [e|]; [|done]. cbn.
  unfold Fp.py_div, py_div. cbn. by repeat case_decide.
Qed.

(** C4 (counterexample): in doubles a numeric failure of the schedule does
    reach the caller, and an overflow need not give the floor.  With
    [initial_temperature = 1] and [alpha = -1] the argument of [math.exp]
    at [n = 2000] is [-2000], [math.exp] returns [0.0] and the division
    raises [ZeroDivisionError].  With [alpha = 1e300] the product
    [10^9 * alpha] is [+inf], [math.exp] returns [+inf] without raising
    and the schedule returns [0.0], not [0.01]. *)
Lemma exponential_temperature_surfaces_zero_division :
  (∀ libm, Double.make_exponential_temperature libm 1 (-1) 2000
             = Raise ZeroDivisionError) ∧
  (∀ libm, Double.make_exponential_temperature libm 1 1e300 (10 ^ 9)
             = Ok 0%float).
Proof. split; intros libm; vm_compute; reflexivity. Qed.

(** The same with a library that underflows at [-746], as glibc's does. *)
Lemma exponential_temperature_zero_division_at_746 (libm : float → float) :
  libm (-746)%float = 0%float →
  Double.make_exponential_temperature libm 1 (-1) 746 = Raise ZeroDivisionError.
Proof.
  intros Hlibm. vm_compute. rewrite Hlibm. vm_compute. reflexivity.
Qed.

(** The quotient itself can underflow: the value is then [0.0]. *)
Lemma exponential_temperature_quotient_underflow (libm : float → float) :
  libm 709%float = 0x1.d422d2be5dc9bp+1022%float →
  Double.make_exponential_temperature libm 1e-20 1 709 = Ok 0%float.
Proof.
  intros Hlibm. vm_compute. rewrite Hlibm. vm_compute. reflexivity.
Qed.


Section ScheduleMonotone.
Context {F : Type} `{Fp.Monotone F}.


End ScheduleMonotone.

(** Exact arithmetic is monotone. *)
#[global] Instance real_monotone : Fp.Monotone R.
Proof.
  assert (Hle : ∀ x y : R, Fp.Le x y ↔ x <= y).
  { intros x y. unfold Fp.Le. cbn. by rewrite bool_decide_eq_true. }
  assert (Hint : ∀ n x, Fp.float_of_int n = Ok x → x = IZR n).
  { intros n x. cbn. unfold py_float. by case_decide; intros [= <-]. }
  assert (Hexp : ∀ p e, Fp.math_exp p = Ok e → e = exp p).
  { intros p e. cbn. unfold math_exp. by case_decide; intros [= <-]. }
  split.
  - intros x y z. rewrite !Hle. lra.
  - intros n1 n2 x1 x2 Hn ->%Hint ->%Hint. rewrite !Hle.
    do 2 (split; [done|]). split.
    + apply IZR_le. lia.
    + apply IZR_le. lia.
  - intros a x1 x2 _. rewrite !Hle. cbn. intros Ha _ _ H1 H12. nra.
  - intros p1 p2 e1 e2. rewrite !Hle. intros Hp ->%Hexp ->%Hexp.
    by apply exp_le_mono.
  - intros p e. rewrite !Hle. cbn. intros Hp ->%Hexp.
    rewrite <- exp_0. by apply exp_le_mono.
  - intros x e1 e2 _. rewrite !Hle. cbn. intros Hx H1 H12.
    assert (0 < e1) by lra. assert (0 < e2) by lra.
    assert (0 < / e1) by (by apply Rinv_0_lt_compat).
    assert (0 < / e2) by (by apply Rinv_0_lt_compat).
    assert (/ e2 <= / e1) by (by apply Rinv_le_contravar).
    assert (/ e1 <= 1).
    { rewrite <- Rinv_1. apply Rinv_le_contravar; lra. }
    unfold Rdiv. repeat split; nra.
  - intros e. rewrite Hle. cbn. intros He.
    apply bool_decide_eq_false. lra.
Qed.


(** ** Softmax exploration *)

Section SoftmaxLoop.
Context {F : Type} `{Fp.Arith F}.

(** The guard [i < len(actions)] still holds at the last index.  When the
    draw is not below any of the running totals, the last one included,
    the loop increments [i] to [len(actions)] and reads [probs] there. *)
Lemma boltzmann_loop_runs_off (r : F) (rest : list F) (i : nat) (tot : F) :
  (∀ k, (k ≤ length rest)%nat → Fp.Le (foldl Fp.add tot (take k rest)) r) →
  Fp.boltzmann_loop (S i + length rest) r rest i tot = Raise IndexError.
Proof.
  revert i tot. induction rest as [|p rest IH]; intros i tot Htot.
  - cbn [Fp.boltzmann_loop length].
    rewrite bool_decide_eq_true_2 by lia.
    specialize (Htot 0%nat (Nat.le_refl _)). cbn in Htot.
    unfold Fp.Le in Htot. by rewrite Htot.
  - cbn [Fp.boltzmann_loop length].
    rewrite bool_decide_eq_true_2 by lia.
    pose proof (Htot 0%nat ltac:(lia)) as H0. cbn in H0.
    unfold Fp.Le in H0. rewrite H0. cbn [andb].
    replace (S i + S (length rest))%nat with (S (S i) + length rest)%nat by lia.
    apply IH. intros k Hk.
    apply (Htot (S k)). cbn [length]. lia.
Qed.

End SoftmaxLoop.

Section SoftmaxMember.
Context {F : Type} `{Fp.Arith F} {Action : Type} `{Countable Action}.

(** Whenever the softmax strategy returns, in any arithmetic, what it
    returns is a member of the sequence of actions. *)
Lemma boltzmann_exploration_returns_member (actions : list Action)
    (utilities : gmap (option Action) F) (temperature : F)
    (action_counter : gmap (option Action) Z) (rnd : Fp.rand F)
    (x : Action) (utilities' : gmap (option Action) F) :
  Fp.boltzmann_exploration actions utilities temperature action_counter rnd
    = Ok (x, utilities') →
  x ∈ actions.
Proof.
  unfold Fp.boltzmann_exploration.
  destruct (Fp.read_utilities actions utilities) as [us u'].
  destruct (Fp.py_max us) as [_max|]; [|done].
  destruct (Fp.py_min us) as [_min|]; [|done].
  cbn [mbind result_bind].
  destruct (Fp.eqb _max _min).
  - unfold Fp.random_choice. destruct actions as [|a actions]; [done|].
    unfold list_getitem.
    destruct ((a :: actions) !! _) as [y|] eqn:Hy; [|done].
    cbn. intros [= <- _]. by eapply list_elem_of_lookup_2.
  - destruct (mapM _ us) as [ws|]; [|done]. cbn [mbind result_bind].
    destruct (mapM _ ws) as [probs|]; [|done]. cbn [mbind result_bind].
    destruct (list_getitem probs 0) as [tot|]; [|done]. cbn [mbind result_bind].
    destruct (Fp.boltzmann_loop _ _ _ _ _) as [i|]; [|done]. cbn [mbind result_bind].
    unfold list_getitem. destruct (actions !! i) as [y|] eqn:Hy; [|done].
    cbn. intros [= <- _]. by eapply list_elem_of_lookup_2.
Qed.

End SoftmaxMember.

(** In exact arithmetic the strategy is the one of the first part. *)
Lemma exact_py_max2 (a b : R) : Fp.py_max2 a b = py_max2 a b.
Proof. unfold Fp.py_max2, py_max2. cbn. by case_bool_decide; case_decide. Qed.

Lemma exact_py_min2 (a b : R) : Fp.py_min2 a b = py_min2 a b.
Proof. unfold Fp.py_min2, py_min2. cbn. by case_bool_decide; case_decide. Qed.

Lemma exact_py_div (x y : R) : Fp.py_div x y = py_div x y.
Proof. unfold Fp.py_div, py_div. cbn. by case_bool_decide; case_decide. Qed.

Lemma foldl_ext_eq {A B} (f g : A → B → A) (a : A) (l : list B) :
  (∀ x y, f x y = g x y) → foldl f a l = foldl g a l.
Proof.
  intros Hfg. revert a. induction l as [|y l IH]; intros a; [done|].
  cbn. by rewrite Hfg, IH.
Qed.

Lemma mapM_ext_eq {A B} (f g : A → result B) (l : list A) :
  (∀ x, f x = g x) → mapM f l = mapM g l.
Proof.
  intros Hfg. induction l as [|x l IH]; [done|]. cbn. by rewrite Hfg, IH.
Qed.

Lemma exact_boltzmann_loop (n : nat) (r : R) (rest : list R) (i : nat) (tot : R) :
  Fp.boltzmann_loop n r rest i tot = boltzmann_loop n r rest i tot.
Proof.
  revert i tot. induction rest as [|p rest IH]; intros i tot; cbn.
  - by repeat case_bool_decide; try lra.
  - rewrite IH. by repeat case_bool_decide; try lra.
Qed.

Lemma exact_boltzmann_exploration {Action : Type} `{Countable Action}
    (actions : list Action) (utilities : utilities_t Action) (temperature : R)
    (action_counter : action_counter_t Action) (rnd : rand) :
  Fp.boltzmann_exploration actions utilities temperature action_counter
    {| Fp.rand_choice := rand_choice rnd; Fp.rand_random := rand_random rnd |}
  = boltzmann_exploration actions utilities temperature action_counter rnd.
Proof.
  unfold Fp.boltzmann_exploration, boltzmann_exploration.
  change (Fp.read_utilities actions utilities) with (read_utilities actions utilities).
  destruct (read_utilities actions utilities) as [us u'].
  rewrite exact_py_max2.
  assert (Hmax : Fp.py_max us = py_max us).
  { destruct us as [|x us]; [done|]. cbn. f_equal.
    apply foldl_ext_eq, exact_py_max2. }
  assert (Hmin : Fp.py_min us = py_min us).
  { destruct us as [|x us]; [done|]. cbn. f_equal.
    apply foldl_ext_eq, exact_py_min2. }
  rewrite Hmax, Hmin.
  destruct (py_max us) as [_max|]; [|done].
  destruct (py_min us) as [_min|]; [|done].
  cbn [mbind result_bind].
  change (Fp.eqb _max _min) with (bool_decide (_max = _min)).
  case_bool_decide; [done|].
  erewrite (mapM_ext_eq _ (λ u, d ← py_div (u - _min) (_max - _min);
                                  q ← py_div d (py_max2 temperature 0.01);
                                  math_exp q)).
  2:{ intros u. rewrite exact_py_div. cbn [Fp.sub real_arith].
      destruct (py_div _ _) as [d|]; [|done]. cbn [mbind result_bind].
      by rewrite exact_py_div. }
  destruct (mapM _ us) as [ws|]; [|done]. cbn [mbind result_bind].
  erewrite (mapM_ext_eq _ (λ u, py_div u (py_sum ws))).
  2:{ intros u. by rewrite exact_py_div. }
  destruct (mapM _ ws) as [probs|]; [|done]. cbn [mbind result_bind].
  destruct (list_getitem probs 0) as [tot|]; [|done]. cbn [mbind result_bind].
  cbn [Fp.rand_random]. by rewrite exact_boltzmann_loop.
Qed.

(** C9: in doubles, ten actions with utilities [0, ..., 0, 1], temperature
    [+inf] and the draw [1 - 2^-53].  Every weight is [exp(0.0) = 1.0],
    every probability is [0.1], and their running total ends at
    [0.9999999999999999], which the draw is not below: the loop goes on
    to [i = 10] and [probs[10]] raises [IndexError]. *)
Theorem boltzmann_exploration_index_error (libm : float → float) :
  Double.boltzmann_exploration libm
    [0; 1; 2; 3; 4; 5; 6; 7; 8; 9]%nat {[ Some 9%nat := 1%float ]} infinity ∅
    {| Fp.rand_choice := 0; Fp.rand_random := Double.random_max |}
  = Raise IndexError.
Proof. vm_compute. reflexivity. Qed.

(** The same at temperature [1], for three actions with utilities
    [0, 1, 3], given what the library returns at [1/3] and at [1] (the
    values are glibc's) and with [sum] adding from left to right: the
    running total ends at [0.9999999999999999]. *)
Lemma boltzmann_index_error_at_temperature_1 (libm : float → float) :
  libm 0x1.5555555555555p-2%float = 0x1.6546db1ba2d13p+0%float →
  libm 1%float = 0x1.5bf0a8b145769p+1%float →
  Double.boltzmann_exploration libm
    [0; 1; 2]%nat {[ Some 1%nat := 1%float; Some 2%nat := 3%float ]} 1 ∅
    {| Fp.rand_choice := 0; Fp.rand_random := Double.random_max |}
  = Raise IndexError.
Proof.
  intros H1 H2. vm_compute. rewrite ?H1, ?H2. vm_compute.
  rewrite ?H1, ?H2. vm_compute. reflexivity.
Qed.

(** With a draw below the last running total the same call returns. *)
Lemma boltzmann_exploration_returns_below (libm : float → float) :
  Double.boltzmann_exploration libm
    [0; 1; 2; 3; 4; 5; 6; 7; 8; 9]%nat {[ Some 9%nat := 1%float ]} infinity ∅
    {| Fp.rand_choice := 0; Fp.rand_random := 0.95%float |}
  = Ok (9%nat, {[ Some 0%nat := 0%float; Some 1%nat := 0%float;
                  Some 2%nat := 0%float; Some 3%nat := 0%float;
                  Some 4%nat := 0%float; Some 5%nat := 0%float;
                  Some 6%nat := 0%float; Some 7%nat := 0%float;
                  Some 8%nat := 0%float; Some 9%nat := 1%float ]}).
Proof. vm_compute. reflexivity. Qed.
